(** * checkxml: XML data checked against a struct definition

    A shallow embedding of the Go package [checkxml] (files
    [unknowntags.go], [missingtags.go] and [misc.go]) and the properties
    of its two walks:

    - [checkAllTags], behind [UnknownXMLTags]: the keys of the decoded
      document that no struct member accounts for;
    - [checkMembers], behind [MissingXMLTags]: the struct members that
      the decoded document has no key for.

    The XML decoder ([mxj.NewMapXml]) belongs to another package; it is
    a parameter of the entry points.  The struct definition reaches the
    walks through [reflect]; the part of [reflect] that the package
    uses is modelled in [Module reflect]. *)

From Stdlib Require Import String Ascii List Bool Arith Lia Permutation.
Import ListNotations.
Set Warnings "-register-all".
Local Open Scope string_scope.
Local Open Scope list_scope.

(** String concatenation, Go's [+] on strings. *)
Infix "+s" := String.append (at level 50, left associativity).

(** ** The Go library functions the package calls *)

Module strings.

(** [strings.Split(s, sep)] for a separator of one byte, which is what
    every call site passes ([","], [">"] and ["."]).  The result is
    never empty: [Split "" sep = [""]]. *)
Fixpoint Split (s : string) (sep : ascii) : list string :=
  match s with
  | EmptyString => [EmptyString]
  | String c s' =>
      if Ascii.eqb c sep then EmptyString :: Split s' sep
      else match Split s' sep with
           | [] => [String c EmptyString]
           | w :: ws => String c w :: ws
           end
  end.

End strings.

Definition comma : ascii := ","%char.
Definition gt : ascii := ">"%char.
Definition dot : ascii := "."%char.

(** [len(s) > 0] on a string. *)
Definition nonempty (s : string) : bool := Nat.ltb 0 (String.length s).

(** ** The decoded document

    [mxj.Map] is [map[string]interface{}]; the values it holds are
    strings (or, with the cast flag, [bool] and [float64]), nested maps
    and [[]interface{}] lists.  A Go map is kept as an association list
    with one entry per key; the order of the list carries no meaning,
    the order in which [range] visits a map is a separate parameter
    ([RangeOrder] below). *)

Inductive Node : Type :=
| Nil                                     (* the nil interface{} *)
| Text (s : string)
| Boolean (b : bool)
| Number (lit : string)                   (* a float64, by its literal *)
| Mapping (mm : list (string * Node))     (* map[string]interface{} *)
| Sequence (l : list Node).               (* []interface{} *)

Definition Map : Type := list (string * Node).

(** [v, ok := m[k]] *)
Fixpoint lookup {A : Type} (k : string) (m : list (string * A)) : option A :=
  match m with
  | [] => None
  | (k', v) :: m' => if String.eqb k k' then Some v else lookup k m'
  end.

Definition keys {A : Type} (m : list (string * A)) : list string := map fst m.

(** The order in which a [range] statement visits the keys of a map.
    Go leaves it unspecified, and it may differ from one [range] to the
    next; all that is known is that every key is visited once. *)
Record RangeOrder : Type := {
  order :> list string -> list string;
  order_perm : forall ks, Permutation (order ks) ks
}.

Definition listedOrder : RangeOrder :=
  {| order := fun ks => ks; order_perm := fun ks => Permutation_refl ks |}.

Definition reversedOrder : RangeOrder :=
  {| order := fun ks => rev ks;
     order_perm := fun ks => Permutation_sym (Permutation_rev ks) |}.

(** ** The struct definition, as [reflect] shows it *)

Module reflect.

(** What the walks read of a [reflect.StructField]: its name, its
    [PkgPath] (empty for an exported field) and [Tag.Get("xml")]. *)
Record StructField : Type := {
  Name : string;
  PkgPath : string;
  XmlTag : string
}.

(** [reflect.Type].  Pointer and slice types are the unnamed type
    literals [*T] and [[]T]; [Basic] stands for every kind other than
    [Ptr], [Slice] and [Struct].  A type is a finite tree: the package
    documents that it does not support recursive structs. *)
Inductive Type_ : Type :=
| Basic (name pkg : string)
| PtrTo (elem : Type_)
| SliceOf (elem : Type_)
| StructOf (name pkg : string) (fields : list (StructField * Type_)).

(** [reflect.Value].  Of a slice only its element type is read. *)
Inductive Value : Type :=
| Invalid                                  (* the zero Value *)
| VBasic (name pkg : string)
| VNilPtr (elem : Type_)
| VPtr (v : Value)
| VSlice (elem : Type_)
| VStruct (name pkg : string) (fields : list (StructField * Value)).

Inductive Kind : Type := KInvalid | KPtr | KSlice | KStruct | KOther.

Definition ValueKind (v : Value) : Kind :=
  match v with
  | Invalid => KInvalid
  | VBasic _ _ => KOther
  | VNilPtr _ | VPtr _ => KPtr
  | VSlice _ => KSlice
  | VStruct _ _ _ => KStruct
  end.

Definition TypeKind (t : Type_) : Kind :=
  match t with
  | Basic _ _ => KOther
  | PtrTo _ => KPtr
  | SliceOf _ => KSlice
  | StructOf _ _ _ => KStruct
  end.

Definition IsValid (v : Value) : bool :=
  match v with Invalid => false | _ => true end.

(** [reflect.Indirect]: the value pointed to, the zero Value for a
    nil pointer, the value itself when it is no pointer. *)
Definition Indirect (v : Value) : Value :=
  match v with
  | VPtr v' => v'
  | VNilPtr _ => Invalid
  | _ => v
  end.

(** The zero value of a type. *)
Fixpoint Zero (t : Type_) : Value :=
  match t with
  | Basic n p => VBasic n p
  | PtrTo e => VNilPtr e
  | SliceOf e => VSlice e
  | StructOf n p fs => VStruct n p (map (fun f => (fst f, Zero (snd f))) fs)
  end.

(** [reflect.New(t)]: a pointer to a new zero value of [t]. *)
Definition New (t : Type_) : Value := VPtr (Zero t).

(** [v.Type()].  It panics on the zero Value; the walks call it after
    [IsValid], and the entry points that do not are guarded there. *)
Fixpoint TypeOf (v : Value) : Type_ :=
  match v with
  | Invalid => Basic "" ""
  | VBasic n p => Basic n p
  | VNilPtr e => PtrTo e
  | VPtr v' => PtrTo (TypeOf v')
  | VSlice e => SliceOf e
  | VStruct n p fs => StructOf n p (map (fun f => (fst f, TypeOf (snd f))) fs)
  end.

Definition TypeName (t : Type_) : string :=
  match t with
  | Basic n _ | StructOf n _ _ => n
  | _ => ""
  end.

Definition TypePkgPath (t : Type_) : string :=
  match t with
  | Basic _ p | StructOf _ p _ => p
  | _ => ""
  end.

(** [t.Elem()] of a slice type, with one pointer level removed:
    [tval := typ.Elem(); if tval.Kind() == reflect.Ptr { tval = tval.Elem() }]. *)
Definition sliceElem (elem : Type_) : Type_ :=
  match elem with
  | PtrTo e => e
  | _ => elem
  end.

End reflect.
Import reflect.

(** [typ.Field(i).Type.Name() == "Name" && typ.Field(i).Type.PkgPath() == "encoding/xml"] *)
Definition isXMLName (fv : Value) : bool :=
  (TypeName (TypeOf fv) =? "Name")%string && (TypePkgPath (TypeOf fv) =? "encoding/xml")%string.

(** [tags[0]], [tag[0]]: the first element of a [Split] result. *)
Definition first (l : list string) : string := hd "" l.

(** ** Package state (misc.go) *)

Record skipmems : Type := { sm_val : string; sm_depth : nat }.

Record Globals : Type := {
  skiptags : list string;
  skipmembers : list skipmems;
  omitemptyOK : bool;
  mxjCast : bool
}.

Definition initial : Globals :=
  {| skiptags := []; skipmembers := []; omitemptyOK := true; mxjCast := false |}.

(** A call of a package function either returns, leaving the package
    variables in some state, or panics. *)
Inductive outcome (A : Type) : Type :=
| Ret (a : A) (g : Globals)
| Panic (msg : string).
Arguments Ret {A} a g.
Arguments Panic {A} msg.

Definition M (A : Type) : Type := Globals -> outcome A.

Definition ret {A} (a : A) : M A := fun g => Ret a g.
Definition bind {A B} (c : M A) (k : A -> M B) : M B :=
  fun g => match c g with
           | Ret a g' => k a g'
           | Panic msg => Panic msg
           end.
Definition get : M Globals := fun g => Ret g g.
Definition put (g : Globals) : M unit := fun _ => Ret tt g.
Definition panic {A} (msg : string) : M A := fun _ => Panic msg.

Notation "x <- c ;; k" := (bind c (fun x => k))
  (at level 61, c at next level, right associativity).
Notation "c ;;; k" := (bind c (fun _ => k))
  (at level 61, right associativity).

Definition set_skiptags (l : list string) (g : Globals) : Globals :=
  {| skiptags := l; skipmembers := skipmembers g;
     omitemptyOK := omitemptyOK g; mxjCast := mxjCast g |}.
Definition set_skipmembers (l : list skipmems) (g : Globals) : Globals :=
  {| skiptags := skiptags g; skipmembers := l;
     omitemptyOK := omitemptyOK g; mxjCast := mxjCast g |}.
Definition set_omitemptyOK (b : bool) (g : Globals) : Globals :=
  {| skiptags := skiptags g; skipmembers := skipmembers g;
     omitemptyOK := b; mxjCast := mxjCast g |}.
Definition set_mxjCast (b : bool) (g : Globals) : Globals :=
  {| skiptags := skiptags g; skipmembers := skipmembers g;
     omitemptyOK := omitemptyOK g; mxjCast := b |}.

(** [func SetTagsToIgnore(s ...string)] *)
Definition SetTagsToIgnore (s : list string) : M unit :=
  g <- get ;;
  match s with
  | [] => put (set_skiptags [] g)
  | s0 :: _ =>
      if (s0 =? "")%string then put (set_skiptags [] g)
      else put (set_skiptags s g)
  end.

(** [func SetMembersToIgnore(s ...string)] *)
Definition SetMembersToIgnore (s : list string) : M unit :=
  g <- get ;;
  if Nat.eqb (length s) 0 then put (set_skipmembers [] g)
  else put (set_skipmembers
              (map (fun v => {| sm_val := v; sm_depth := length (strings.Split v dot) |}) s) g).

(** [func IgnoreOmitemptyTag(ok ...bool)] *)
Definition IgnoreOmitemptyTag (ok : list bool) : M unit :=
  g <- get ;;
  match ok with
  | [] => put (set_omitemptyOK (negb (omitemptyOK g)) g)
  | ok0 :: _ => put (set_omitemptyOK ok0 g)
  end.

(** [func SetMxjCast(b ...bool)]: the [if len(b) == 0] block has no
    [return], so the assignment [mxjCast = b[0]] is reached with every
    argument list; indexing an empty slice panics. *)
Definition SetMxjCast (b : list bool) : M unit :=
  g <- get ;;
  (if Nat.eqb (length b) 0 then put (set_mxjCast (negb (mxjCast g)) g) else ret tt) ;;;
  g <- get ;;
  match b with
  | [] => panic "runtime error: index out of range [0] with length 0"
  | b0 :: _ => put (set_mxjCast b0 g)
  end.

(** ** Dot-notation paths *)

(** [key + "." + k], or [k] alone at the top level, where the parent
    path is empty.  [checkAllTags] tests [key == ""], [checkMembers]
    tests [len(cmem) > 0]; both are this function. *)
Definition joinPath (parent k : string) : string :=
  if (parent =? "")%string then k else parent +s "." +s k.

(** The xml tag of a struct field, split as both walks split it:
    [tags = strings.Split(tagvals, ",")] and
    [tag = strings.Split(tags[0], ">")]. *)
Definition tagOptions (sf : StructField) : list string :=
  strings.Split (XmlTag sf) comma.
Definition tagPath (sf : StructField) : list string :=
  strings.Split (first (tagOptions sf)) gt.

(** [for _, v := range tags[1:] { if v == opt { ... } }] *)
Definition hasOption (opt : string) (sf : StructField) : bool :=
  existsb (String.eqb opt) (tl (tagOptions sf)).

(** ** unknowntags.go: the keys no struct member accounts for *)

Module Unknown.

Record fieldSpec : Type := { val : Value; tag : list string }.

(** Step 4 of [checkAllTags] for the field [i]: the key under which it
    is entered in [fields], with its [fieldSpec]; [None] where the
    loop says [continue]. *)
Definition fieldKey (f : StructField * Value) : option (string * fieldSpec) :=
  let (sf, fv) := f in
  if nonempty (PkgPath sf) then None            (* field is NOT exported *)
  else if isXMLName fv then None                (* xml.Name fields *)
  else
    let tag := tagPath sf in
    let tag := if (first tag =? "-")%string then [""] else tag in
    let attr := hasOption "attr" sf in
    let spec := {| val := fv; tag := tag |} in
    match attr with
    | false =>
        if (first tag =? "")%string then Some (Name sf, spec)
        else Some (first tag, spec)
    | true =>
        if (first tag =? "")%string then Some ("-" +s Name sf, spec)
        else Some ("-" +s first tag, spec)
    end.

(** [fields], a [map[string]*fieldSpec] filled in field order: a
    later field replaces an earlier one entered under the same key.
    The newest entry is at the head, where [lookup] finds it. *)
Definition buildFields (flds : list (StructField * Value)) : list (string * fieldSpec) :=
  fold_left (fun fields f =>
               match fieldKey f with
               | Some e => e :: fields
               | None => fields
               end) flds [].

(** [for _, sk := range skiptags { ... goto next }] *)
Definition skipped (skiptags : list string) (key k : string) : bool :=
  existsb (fun sk =>
             if (key =? "")%string && (k =? sk)%string then true
             else negb (key =? "")%string && (key +s "." +s k =? sk)%string)
          skiptags.

(** The body of the loop of step 5 for the key [k]; [walk] is the
    recursive call on the value of [k]. *)
Definition checkKey (skiptags : list string) (fields : list (string * fieldSpec))
           (key k : string) (walk : Value -> string -> list string) : list string :=
  if skipped skiptags key k then []
  else
    let tkey := joinPath key k in
    match lookup k fields with
    | None => [tkey]
    | Some spec => walk (val spec) tkey
    end.

(** One round of [for k, m := range mm]: the loop body at the key
    [k] and its value [m = mm[k]]. *)
Section AtKey.
Variable body : string -> Node -> list string.
Fixpoint atKey (mm : list (string * Node)) (k : string) : list string :=
  match mm with
  | [] => []
  | (k', m) :: mm' => if String.eqb k k' then body k m else atKey mm' k
  end.
End AtKey.

Section Walk.

Variable rangeKeys : RangeOrder.
Variable skiptags : list string.

(** [func checkAllTags(mv interface{}, val reflect.Value, s *[]string, key string)].
    [*s] is only appended to, so a call is modelled by the entries
    it appends, in order.  The recursion follows the document. *)
Fixpoint checkAllTags (mv : Node) (val : Value) (key : string) {struct mv} : list string :=
  (* 1. Convert any pointer value. *)
  let val := match ValueKind val with KPtr => Indirect val | _ => val end in
  match val with
  | Invalid => []                                   (* zero Value? *)
  | VSlice elem =>
      (* 2. a slice: mv should hold a []interface{} value *)
      let sval := New (sliceElem elem) in
      match mv with
      | Sequence slice => flat_map (fun sl => checkAllTags sl sval key) slice
      | _ => [key]
      end
  | VStruct _ _ flds =>
      (* 3b. a failed assertion records key and leaves mm nil: the
         function goes on, and the loop of step 5 has nothing to visit *)
      let fields := buildFields flds in
      match mv with
      | Mapping mm =>
          (* 5. for k, m := range mm *)
          flat_map
            (atKey (fun k m => checkKey skiptags fields key k (checkAllTags m)) mm)
            (rangeKeys (keys mm))
      | _ => [key]
      end
  | _ => []                                         (* 3a. not a struct *)
  end.

(** [for root, v = range m { break }] *)
Definition firstEntry (m : Map) : string * Node :=
  match rangeKeys (keys m) with
  | [] => ("", Nil)
  | k :: _ => (k, match lookup k m with Some v => v | None => Nil end)
  end.

End Walk.

End Unknown.

(** The type assertions of the entry points:
    [v.(map[string]interface{})] or [v.([]interface{})] holds. *)
Definition isMapOrList (v : Node) : bool :=
  match v with
  | Mapping _ | Sequence _ => true
  | _ => false
  end.

Definition error : Type := string.

(** What a decoder call gives: the map and the error. *)
Definition Decoder : Type := string -> list bool -> Map * option error.

(** ** missingtags.go: the struct members the document has no key for *)

Module Missing.

Record fieldSpec : Type := {
  name : string;
  val : Value;
  tag : list string;
  omitempty : bool
}.

(** [tag[0] = "-" + tag[0]], an assignment to the first element. *)
Definition setFirst (x : string) (l : list string) : list string :=
  match l with
  | [] => []
  | _ :: l' => x :: l'
  end.

(** Step 4 of [checkMembers] for the field [i]: the [fieldSpec]
    appended to [fields]; [None] where the loop says [continue]. *)
Definition fieldOf (f : StructField * Value) : option fieldSpec :=
  let (sf, fv) := f in
  if nonempty (PkgPath sf) then None            (* field is NOT exported *)
  else if isXMLName fv then None                (* xml.Name fields *)
  else
    let tag := tagPath sf in
    if (first tag =? "-")%string then None      (* don't even bother *)
    else
      let oempty := hasOption "omitempty" sf in
      let attr := hasOption "attr" sf in
      match attr with
      | false =>
          Some {| name := Name sf; val := fv; tag := tag; omitempty := oempty |}
      | true =>
          if (first tag =? "")%string
          then Some {| name := "-" +s Name sf; val := fv; tag := tag; omitempty := oempty |}
          else Some {| name := "-" +s Name sf; val := fv;
                       tag := setFirst ("-" +s first tag) tag; omitempty := oempty |}
      end.

(** [fields], a list, so that the members are in sequence. *)
Definition buildFields (flds : list (StructField * Value)) : list fieldSpec :=
  flat_map (fun f => match fieldOf f with Some fs => [fs] | None => [] end) flds.

(** [cmem+typ.Name()], the entry of step 3b. *)
Definition mismatchEntry (cmem tname : string) : string := cmem +s tname.

(** [fn]: the xml tag when there is one, else the field name. *)
Definition lookupName (field : fieldSpec) : string :=
  if nonempty (first (tag field)) then first (tag field) else name field.

(** [cmemdepth := 1; if len(cmem) > 0 { cmemdepth = len(strings.Split(cmem, ".")) + 1 }] *)
Definition cmemdepth (cmem : string) : nat :=
  if nonempty cmem then length (strings.Split cmem dot) + 1 else 1.

(** [for _, sm := range skipmembers { ... goto next }] *)
Definition skipped (skipmembers : list skipmems) (cmem fn : string) : bool :=
  existsb (fun sm =>
             if negb (Nat.eqb (cmemdepth cmem) (sm_depth sm)) then false
             else if nonempty cmem then (cmem +s "." +s fn =? sm_val sm)%string
                  else (fn =? sm_val sm)%string)
          skipmembers.

Section Walk.

Variable g : Globals.

(** The loop of step 5 for one field, once it is not skipped: the
    lookup of [fn] in [mkeys], the entry for a missing key, and the
    recursive call [walk], made whether or not the key was found. *)
Definition lookForField (walk : Node -> Value -> string -> list string)
           (mkeys : Map) (cmem : string) (field : fieldSpec) : list string :=
  let fn := lookupName field in
  let (v, ok) := match lookup fn mkeys with
                 | Some v => (v, true)
                 | None => (Nil, false)
                 end in
  (if negb ok && (negb (omitempty field) || negb (omitemptyOK g))
   then [joinPath cmem fn] else [])
  ++ walk v (val field) (joinPath cmem fn).

(** The body of the loop of step 5 for one field; [walk] is the
    recursive call.  [mkeys] is the key-by-key copy of [mm]. *)
Definition checkField (walk : Node -> Value -> string -> list string)
           (mkeys : Map) (cmem : string) (field : fieldSpec) : list string :=
  if skipped (skipmembers g) cmem (lookupName field) then []
  else lookForField walk mkeys cmem field.

(** The body of [checkMembers], with [walk] for the recursive call. *)
Definition checkMembersBody (walk : Node -> Value -> string -> list string)
           (mv : Node) (val : Value) (cmem : string) : list string :=
  (* 1. Convert any pointer value. *)
  let val := match ValueKind val with KPtr => Indirect val | _ => val end in
  match val with
  | Invalid => []                                   (* zero Value? *)
  | VSlice elem =>
      (* 2. a slice: mv must be a []interface{}; if it isn't, coerce it *)
      let sval := New (sliceElem elem) in
      let slice := match mv with
                   | Sequence slice => slice
                   | _ => [mv]
                   end in
      flat_map (fun sl => walk sl sval cmem) slice
  | VStruct tname _ flds =>
      match mv with
      | Mapping mm =>
          let mkeys := mm in
          let fields := buildFields flds in
          flat_map (checkField walk mkeys cmem) fields
      | _ => [mismatchEntry cmem tname]             (* 3b. *)
      end
  | _ => []                                         (* 3a. not a struct *)
  end.

(** [func checkMembers(mv interface{}, val reflect.Value, s *[]string, cmem string)].
    Every recursive call is on a value nested less deeply than
    [val], so the calls are counted down from the depth of [val]. *)
Fixpoint checkMembersN (n : nat) (mv : Node) (val : Value) (cmem : string) : list string :=
  match n with
  | 0 => []
  | S n' => checkMembersBody (checkMembersN n') mv val cmem
  end.

End Walk.

(** The nesting depth of a type and of a value. *)
Fixpoint tdepth (t : Type_) : nat :=
  match t with
  | Basic _ _ => 0
  | PtrTo e => S (tdepth e)
  | SliceOf e => S (S (tdepth e))
  | StructOf _ _ fs => S (list_max (map (fun f => tdepth (snd f)) fs))
  end.

Fixpoint vdepth (v : Value) : nat :=
  match v with
  | Invalid | VBasic _ _ => 0
  | VNilPtr e => S (tdepth e)
  | VPtr v' => S (vdepth v')
  | VSlice e => S (S (tdepth e))
  | VStruct _ _ fs => S (list_max (map (fun f => vdepth (snd f)) fs))
  end.

Definition checkMembers (g : Globals) (mv : Node) (val : Value) (cmem : string) : list string :=
  checkMembersN g (S (vdepth val)) mv val cmem.

End Missing.

(** ** The entry points

    [val] is [reflect.ValueOf(val)] of the argument; [NewMapXml] is the
    decoder.  The functions on an [io.Reader] differ from the ones
    below in the decoder they call and in nothing else. *)

Section EntryPoints.

Variable rangeKeys : RangeOrder.
Variable NewMapXml : Decoder.

(** [func UnknownXMLTags(b []byte, val interface{}) ([]string, string, error)] *)
Definition UnknownXMLTags (b : string) (val : Value)
  : M (list string * string * option error) :=
  g <- get ;;
  let (m, err) := NewMapXml b [] in
  match err with
  | Some e => ret ([], "", Some e)
  | None =>
      (* strip the root tag and seed 'key' *)
      let (root, v) := Unknown.firstEntry rangeKeys m in
      if negb (isMapOrList v)
      then ret ([], root, Some "no elements")
      else ret (Unknown.checkAllTags rangeKeys (skiptags g) v val "", root, None)
  end.

(** [func UnknownXMLTagsMap(b []byte, val interface{}) ([]string, string, mxj.Map, error)] *)
Definition UnknownXMLTagsMap (b : string) (val : Value)
  : M (list string * string * Map * option error) :=
  g <- get ;;
  let (m, err) := NewMapXml b [mxjCast g] in
  match err with
  | Some e => ret ([], "", [], Some e)
  | None =>
      let (root, v) := Unknown.firstEntry rangeKeys m in
      if negb (isMapOrList v)
      then ret ([], root, m, Some "no elements")
      else ret (Unknown.checkAllTags rangeKeys (skiptags g) v val "", root, m, None)
  end.

(** [vv, ok := v.(map[string]interface{})]: [vv] is the nil map when
    the assertion fails, and it is [vv] that goes to [checkMembers]. *)
Definition assertMap (v : Node) : Node :=
  match v with
  | Mapping mm => Mapping mm
  | _ => Mapping []
  end.

(** [s = append(s, reflect.ValueOf(val).Type().Name())]; [Type]
    panics on the zero Value, which a nil [val] gives. *)
Definition typeNameEntry {A} (val : Value) (k : list string -> M A) : M A :=
  match val with
  | Invalid => panic "reflect: call of reflect.Value.Type on zero Value"
  | _ => k [TypeName (TypeOf val)]
  end.

(** [func MissingXMLTags(b []byte, val interface{}) ([]string, string, error)].
    Its loop over [m] is [for _, v = range m { break }]: [root] keeps
    its initial value, the empty string. *)
Definition MissingXMLTags (b : string) (val : Value)
  : M (list string * string * option error) :=
  g <- get ;;
  let (m, err) := NewMapXml b [] in
  match err with
  | Some e => ret ([], "", Some e)
  | None =>
      let root := "" in
      let v := snd (Unknown.firstEntry rangeKeys m) in
      if negb (isMapOrList v)
      then typeNameEntry val (fun s => ret (s, root, None))
      else ret (Missing.checkMembers g (assertMap v) val "", root, None)
  end.

(** [func MissingXMLTagsMap(b []byte, val interface{}) ([]string, mxj.Map, string, error)],
    with [for root, v = range m { break }]. *)
Definition MissingXMLTagsMap (b : string) (val : Value)
  : M (list string * Map * string * option error) :=
  g <- get ;;
  let (m, err) := NewMapXml b [mxjCast g] in
  match err with
  | Some e => ret ([], m, "", Some e)
  | None =>
      let (root, v) := Unknown.firstEntry rangeKeys m in
      if negb (isMapOrList v)
      then typeNameEntry val (fun s => ret (s, m, root, None))
      else ret (Missing.checkMembers g (assertMap v) val "", m, root, None)
  end.

End EntryPoints.

(** A decoder that gives the map [m] for the bytes [b]. *)
Definition decodes (NewMapXml : Decoder) (b : string) (m : Map) : Prop :=
  forall cast, NewMapXml b cast = (m, None).

Definition decoderOf (m : Map) : Decoder := fun _ _ => (m, None).

(** ** The documents and structs of the package's examples and tests *)

Definition field (n tagv : string) : StructField :=
  {| Name := n; PkgPath := ""; XmlTag := tagv |}.

Definition TString : Type_ := Basic "string" "".
Definition VString : Value := VBasic "string" "".
Definition VBool : Value := VBasic "bool" "".

(** [<doc><e1>test</e1></doc>] and
    [type doc1 struct { E1 string `xml:"e1"`; E2 string `xml:"e2"` }] *)
Definition data1 : string := "<doc><e1>test</e1></doc>".
Definition map1 : Map := [("doc", Mapping [("e1", Text "test")])].
Definition doc1 : Value :=
  VStruct "doc1" "checkxml" [(field "E1" "e1", VString); (field "E2" "e2", VString)].

(** TestUnknownTagsSingletonList: [<yy><xx>1</xx></yy>] and
    [type Y struct { Property []string `xml:"xx"` }] *)
Definition dataYY : string := "<yy><xx>1</xx></yy>".
Definition mapYY : Map := [("yy", Mapping [("xx", Text "1")])].
Definition structY : Value :=
  VStruct "Y" "checkxml" [(field "Property" "xx", VSlice TString)].

(** [<doc><more>text</more></doc>] against
    [type test struct { More test2 `xml:"more"` }], [test2] a struct. *)
Definition test2 : Value :=
  VStruct "test2" "checkxml" [(field "Why" "", VString); (field "Not" "", VString)].
Definition testMore : Value :=
  VStruct "test" "checkxml" [(field "More" "more", test2)].
Definition dataMore : string := "<doc><more>text</more></doc>".
Definition mapMore : Map := [("doc", Mapping [("more", Text "text")])].

(** [<doc>text</doc>]: a root whose value is a string. *)
Definition dataText : string := "<doc>text</doc>".
Definition mapText : Map := [("doc", Text "text")].

(** [<doc><a>1</a><b>2</b></doc>] against [struct{}]. *)
Definition dataAB : string := "<doc><a>1</a><b>2</b></doc>".
Definition mapAB : Map := [("doc", Mapping [("a", Text "1"); ("b", Text "2")])].
Definition emptyStruct : Value := VStruct "empty" "checkxml" [].

(** [type test2 struct { Maybe sub `xml:"-"` }] with [sub] a struct,
    and the element [<Why><Maybe>true</Maybe></Why>]. *)
Definition subStruct : Value := VStruct "sub" "checkxml" [(field "X" "", VString)].
Definition ignoredStructField : Value :=
  VStruct "test2" "checkxml" [(field "Maybe" "-", subStruct)].
Definition whyMaybe : Node := Mapping [("Maybe", Text "true")].

(** ** What the claims speak of *)

Definition isMapping (mv : Node) : bool :=
  match mv with
  | Mapping _ => true
  | _ => false
  end.

(** The value is a struct once step 1 has converted a pointer. *)
Definition expectsStruct (val : Value) : bool :=
  match match ValueKind val with KPtr => Indirect val | _ => val end with
  | VStruct _ _ _ => true
  | _ => false
  end.

(** The number of dot-segments of a path; the empty path has none. *)
Definition segments (path : string) : nat :=
  if nonempty path then length (strings.Split path dot) else 0.




(** What one round of the loop of step 5 of [checkAllTags] appends:
    the entries for the key [k] of the map [mm]. *)
Definition entriesAt (ro : RangeOrder) (sk : list string)
           (fields : list (string * Unknown.fieldSpec)) (key : string)
           (mm : Map) (k : string) : list string :=
  match lookup k mm with
  | Some m => Unknown.checkKey sk fields key k (Unknown.checkAllTags ro sk m)
  | None => []
  end.

(** The key under which [checkAllTags] enters a member whose xml tag
    is ["-"]: its declared name, with the attribute prefix when the
    member is tagged [attr]. *)
Definition declaredKey (sf : StructField) : string :=
  if hasOption "attr" sf then "-" +s Name sf else Name sf.


(** A decoded document has one root element. *)
Definition singleRoot (m : Map) : Prop := length m <= 1.

(** ** misc.go: the convenience check *)

(** [func HasTags(result []string, check ...string) (bool, []string)].
    [r] is the map filled by [r[v] = true] over [result]; [missing]
    collects, in order, the values of [check] that [r] does not hold. *)
Definition HasTags (result check : list string) : bool * list string :=
  let r := fold_left (fun r v => (v, true) :: r) result [] in
  let missing :=
    flat_map (fun v => match lookup v r with
                       | Some _ => []
                       | None => [v]
                       end) check in
  if Nat.ltb 0 (length missing) then (false, missing) else (true, []).

(** The shape of a document: its maps, keys and lists, with every
    value that is neither a map nor a list forgotten. *)
Fixpoint shape (n : Node) : Node :=
  match n with
  | Mapping mm => Mapping (map (fun e => (fst e, shape (snd e))) mm)
  | Sequence l => Sequence (map shape l)
  | _ => Nil
  end.

(** A value of basic kind: not a pointer, a slice or a struct. *)
Definition isBasic (v : Value) : bool :=
  match ValueKind v with
  | KOther => true
  | _ => false
  end.

(** [_, ok := m[k]] *)
Definition has {A : Type} (k : string) (m : list (string * A)) : bool :=
  match lookup k m with
  | Some _ => true
  | None => false
  end.

(** The documentation's third example, an [e1] element with an
    attribute [attr] and an [e2] element, as mxj decodes it, against
    [type doc3 struct { E1 string `xml:"e1"` }]. *)
Definition data3 : string :=
  "<doc><e1 attr='something'>test</e1><e2>more</e2></doc>".
Definition map3 : Map :=
  [("doc", Mapping [("e1", Mapping [("-attr", Text "something"); ("#text", Text "test")]);
                    ("e2", Text "more")])].
Definition doc3 : Value := VStruct "doc3" "checkxml" [(field "E1" "e1", VString)].

(** ** The calls of a walk, and what they meet *)

(** Step 1 of both walks: a pointer is replaced by what it points to. *)
Definition converted (val : Value) : Value :=
  match ValueKind val with
  | KPtr => Indirect val
  | _ => val
  end.

(** A call of [checkAllTags]: the node, the value and the path. *)
Definition call : Type := (Node * Value * string)%type.

(** The recursive calls of [checkAllTags]: a call on a list and a
    slice calls it on every element, with the same path; a call on a
    map and a struct calls it on the value of every key that is not
    ignored and that the field table holds, with the path of the
    key. *)
Inductive calls (sk : list string) : call -> call -> Prop :=
| calls_element : forall val key elem l sl,
    converted val = VSlice elem ->
    In sl l ->
    calls sk (Sequence l, val, key) (sl, New (sliceElem elem), key)
| calls_key : forall val key n p flds mm k m spec,
    converted val = VStruct n p flds ->
    lookup k mm = Some m ->
    Unknown.skipped sk key k = false ->
    lookup k (Unknown.buildFields flds) = Some spec ->
    calls sk (Mapping mm, val, key) (m, Unknown.val spec, joinPath key k).

(** The calls made, one within the other, by the call [c0]. *)
Inductive reached (sk : list string) (c0 : call) : call -> Prop :=
| reached_first : reached sk c0 c0
| reached_next : forall c c', reached sk c0 c -> calls sk c c' -> reached sk c0 c'.


(** The member [fs], at the parent path [cmem], has the path of one of
    the entries [l], and that entry has the depth of the level. *)
Definition ignoredAt (l : list string) (cmem : string) (fs : Missing.fieldSpec) : bool :=
  let path := joinPath cmem (Missing.lookupName fs) in
  existsb (String.eqb path) l
  && Nat.eqb (length (strings.Split path dot)) (segments cmem + 1).

(** The map without the key [k]. *)
Definition removeKey (k : string) (mm : Map) : Map :=
  filter (fun e => negb (fst e =? k)%string) mm.

(** A decoder that honours the casting flag: [cast] with the flag,
    [plain] without it. *)
Definition castingDecoder (plain cast : Map) : Decoder :=
  fun _ flag => match flag with
                | true :: _ => (cast, None)
                | _ => (plain, None)
                end.

(** [<doc><Maybe>true</Maybe></doc>]; the struct of
    TestUnknownXMLTagsWithIgnoreTag, [Maybe bool `xml:"-"`]; a
    document with a [Why] element around [Maybe]. *)
Definition dataMaybe : string := "<doc><Maybe>true</Maybe></doc>".
Definition mapMaybe : Map := [("doc", whyMaybe)].
Definition ignoredBoolField : Value :=
  VStruct "test2" "checkxml" [(field "Maybe" "-", VBool)].
Definition testWhy : Value :=
  VStruct "test" "checkxml" [(field "Ok" "", VBool); (field "Why" "", subStruct)].
Definition mapWhy : Map := [("doc", Mapping [("Ok", Text "true"); ("Why", Text "x")])].

(** [<doc>true</doc>], not cast and cast. *)
Definition dataTrue : string := "<doc>true</doc>".
Definition mapTrue : Map := [("doc", Text "true")].
Definition mapTrueCast : Map := [("doc", Boolean true)].

(** * Properties *)

(** ** Induction over documents, types and values *)

Section NodeInduction.
Variable P : Node -> Prop.
Hypothesis HNil : P Nil.
Hypothesis HText : forall s, P (Text s).
Hypothesis HBoolean : forall b, P (Boolean b).
Hypothesis HNumber : forall l, P (Number l).
Hypothesis HMapping : forall mm, Forall (fun e => P (snd e)) mm -> P (Mapping mm).
Hypothesis HSequence : forall l, Forall P l -> P (Sequence l).

Fixpoint Node_nested_ind (n : Node) : P n :=
  match n with
  | Nil => HNil
  | Text s => HText s
  | Boolean b => HBoolean b
  | Number l => HNumber l
  | Mapping mm =>
      HMapping mm
        ((fix go (es : list (string * Node)) : Forall (fun e => P (snd e)) es :=
            match es with
            | [] => Forall_nil _
            | e :: es' => Forall_cons e (Node_nested_ind (snd e)) (go es')
            end) mm)
  | Sequence l =>
      HSequence l
        ((fix go (ns : list Node) : Forall P ns :=
            match ns with
            | [] => Forall_nil _
            | x :: ns' => Forall_cons x (Node_nested_ind x) (go ns')
            end) l)
  end.
End NodeInduction.

Section TypeInduction.
Variable P : Type_ -> Prop.
Hypothesis HBasic : forall n p, P (Basic n p).
Hypothesis HPtrTo : forall e, P e -> P (PtrTo e).
Hypothesis HSliceOf : forall e, P e -> P (SliceOf e).
Hypothesis HStructOf : forall n p fs, Forall (fun f => P (snd f)) fs -> P (StructOf n p fs).

Fixpoint Type_nested_ind (t : Type_) : P t :=
  match t with
  | Basic n p => HBasic n p
  | PtrTo e => HPtrTo e (Type_nested_ind e)
  | SliceOf e => HSliceOf e (Type_nested_ind e)
  | StructOf n p fs =>
      HStructOf n p fs
        ((fix go (l : list (StructField * Type_)) : Forall (fun f => P (snd f)) l :=
            match l with
            | [] => Forall_nil _
            | f :: l' => Forall_cons f (Type_nested_ind (snd f)) (go l')
            end) fs)
  end.
End TypeInduction.

Section ValueInduction.
Variable P : Value -> Prop.
Hypothesis HInvalid : P Invalid.
Hypothesis HVBasic : forall n p, P (VBasic n p).
Hypothesis HVNilPtr : forall e, P (VNilPtr e).
Hypothesis HVPtr : forall v, P v -> P (VPtr v).
Hypothesis HVSlice : forall e, P (VSlice e).
Hypothesis HVStruct : forall n p fs, Forall (fun f => P (snd f)) fs -> P (VStruct n p fs).

Fixpoint Value_nested_ind (v : Value) : P v :=
  match v with
  | Invalid => HInvalid
  | VBasic n p => HVBasic n p
  | VNilPtr e => HVNilPtr e
  | VPtr v' => HVPtr v' (Value_nested_ind v')
  | VSlice e => HVSlice e
  | VStruct n p fs =>
      HVStruct n p fs
        ((fix go (l : list (StructField * Value)) : Forall (fun f => P (snd f)) l :=
            match l with
            | [] => Forall_nil _
            | f :: l' => Forall_cons f (Value_nested_ind (snd f)) (go l')
            end) fs)
  end.
End ValueInduction.

(** ** Lists and strings *)

Lemma flat_map_ext_in {A B} (f g : A -> list B) (l : list A) :
  (forall x, In x l -> f x = g x) -> flat_map f l = flat_map g l.
Proof.
  induction l as [|a l IH]; simpl; intros H; [reflexivity|].
  rewrite (H a (or_introl eq_refl)), IH; auto.
Qed.

Lemma list_max_In (l : list nat) (x : nat) : In x l -> x <= list_max l.
Proof.
  induction l as [|a l IH]; simpl; [tauto|].
  intros [->|H]; [lia|]. specialize (IH H). lia.
Qed.

Lemma range_singleton (ro : RangeOrder) (k : string) : ro [k] = [k].
Proof.
  apply Permutation_length_1_inv, Permutation_sym, order_perm.
Qed.

Lemma range_nil (ro : RangeOrder) : ro [] = [].
Proof.
  apply Permutation_nil, Permutation_sym, order_perm.
Qed.

Lemma Split_nonempty (s : string) (sep : ascii) : strings.Split s sep <> [].
Proof.
  destruct s as [|c s]; simpl; [discriminate|].
  destruct (Ascii.eqb c sep); [discriminate|].
  destruct (strings.Split s sep); discriminate.
Qed.

(** ** The walk of [checkMembers] comes to an end *)

Lemma vdepth_Zero (t : Type_) : Missing.vdepth (Zero t) = Missing.tdepth t.
Proof.
  induction t as [n p|e IH|e IH|n p fs IH] using Type_nested_ind; simpl; auto.
  f_equal. f_equal. rewrite map_map. simpl.
  induction IH as [|f fs Hf _ IHfs]; simpl; [reflexivity|].
  rewrite Hf, IHfs. reflexivity.
Qed.

Lemma tdepth_sliceElem (e : Type_) : Missing.tdepth (sliceElem e) <= Missing.tdepth e.
Proof. destruct e; simpl; lia. Qed.

Lemma vdepth_field (fs : list (StructField * Value)) (f : StructField * Value) :
  In f fs -> Missing.vdepth (snd f) <= list_max (map (fun f => Missing.vdepth (snd f)) fs).
Proof.
  intros H. apply list_max_In. apply (in_map (fun f => Missing.vdepth (snd f))) in H. exact H.
Qed.

Lemma fieldOf_val (f : StructField * Value) (fs : Missing.fieldSpec) :
  Missing.fieldOf f = Some fs -> Missing.val fs = snd f.
Proof.
  destruct f as [sf fv]. unfold Missing.fieldOf.
  destruct (nonempty (PkgPath sf)); [discriminate|].
  destruct (isXMLName fv); [discriminate|].
  destruct (first (tagPath sf) =? "-")%string; [discriminate|].
  destruct (hasOption "attr" sf).
  - destruct (first (tagPath sf) =? "")%string; intros [= <-]; reflexivity.
  - intros [= <-]; reflexivity.
Qed.

Lemma buildFields_In (flds : list (StructField * Value)) (fs : Missing.fieldSpec) :
  In fs (Missing.buildFields flds) <-> exists f, In f flds /\ Missing.fieldOf f = Some fs.
Proof.
  unfold Missing.buildFields. rewrite in_flat_map. split.
  - intros (f & Hf & Hin). exists f. split; [exact Hf|].
    destruct (Missing.fieldOf f); simpl in Hin; [|tauto].
    destruct Hin as [->|[]]. reflexivity.
  - intros (f & Hf & E). exists f. split; [exact Hf|]. rewrite E. simpl. auto.
Qed.

(** The body of [checkMembers] calls [walk] only on values nested less
    deeply than its own. *)
Lemma checkMembersBody_ext (g : Globals) (w1 w2 : Node -> Value -> string -> list string)
      (mv : Node) (v : Value) (cmem : string) :
  (forall mv' v' cmem', Missing.vdepth v' < Missing.vdepth v -> w1 mv' v' cmem' = w2 mv' v' cmem') ->
  Missing.checkMembersBody g w1 mv v cmem = Missing.checkMembersBody g w2 mv v cmem.
Proof.
  intros H. unfold Missing.checkMembersBody.
  assert (Hstep : forall u, Missing.vdepth u <= Missing.vdepth v ->
     match u with
     | VSlice elem =>
         flat_map (fun sl => w1 sl (New (sliceElem elem)) cmem)
           match mv with Sequence slice => slice | _ => [mv] end
     | VStruct tname _ flds =>
         match mv with
         | Mapping mm => flat_map (Missing.checkField g w1 mm cmem) (Missing.buildFields flds)
         | _ => [Missing.mismatchEntry cmem tname]
         end
     | _ => []
     end =
     match u with
     | VSlice elem =>
         flat_map (fun sl => w2 sl (New (sliceElem elem)) cmem)
           match mv with Sequence slice => slice | _ => [mv] end
     | VStruct tname _ flds =>
         match mv with
         | Mapping mm => flat_map (Missing.checkField g w2 mm cmem) (Missing.buildFields flds)
         | _ => [Missing.mismatchEntry cmem tname]
         end
     | _ => []
     end).
  { intros u Hu. destruct u as [| | | |e|n p flds]; try reflexivity.
    - apply flat_map_ext_in. intros sl _. apply H.
      unfold New. simpl in *. rewrite vdepth_Zero.
      pose proof (tdepth_sliceElem e). lia.
    - destruct mv; try reflexivity.
      apply flat_map_ext_in. intros fs Hfs.
      apply buildFields_In in Hfs. destruct Hfs as (f & Hf & E).
      unfold Missing.checkField, Missing.lookForField.
      destruct (Missing.skipped _ _ _); [reflexivity|].
      destruct (lookup _ mm); f_equal; apply H;
        rewrite (fieldOf_val _ _ E); pose proof (vdepth_field _ _ Hf); simpl in Hu; lia. }
  destruct v as [| | |v'|e|n p flds]; try reflexivity.
  - apply (Hstep v'). simpl. lia.
  - apply (Hstep (VSlice e)). lia.
  - apply (Hstep (VStruct n p flds)). lia.
Qed.

Lemma checkMembersN_agree (g : Globals) (n : nat) :
  forall m mv v cmem, Missing.vdepth v < n -> Missing.vdepth v < m ->
    Missing.checkMembersN g n mv v cmem = Missing.checkMembersN g m mv v cmem.
Proof.
  induction n as [|n IH]; intros m mv v cmem Hn Hm; [lia|].
  destruct m as [|m]; [lia|]. simpl.
  apply checkMembersBody_ext. intros mv' v' cmem' Hlt. apply IH; lia.
Qed.

(** [checkMembers] satisfies the equation of the source function: its
    body, with the recursive calls on [checkMembers] itself. *)
Lemma checkMembers_eq (g : Globals) (mv : Node) (v : Value) (cmem : string) :
  Missing.checkMembers g mv v cmem =
  Missing.checkMembersBody g (Missing.checkMembers g) mv v cmem.
Proof.
  unfold Missing.checkMembers at 1. simpl.
  apply checkMembersBody_ext. intros mv' v' cmem' Hlt.
  unfold Missing.checkMembers. apply checkMembersN_agree; lia.
Qed.

Lemma atKey_lookup (body : string -> Node -> list string) (mm : Map) (k : string) :
  Unknown.atKey body mm k =
  match lookup k mm with
  | Some m => body k m
  | None => []
  end.
Proof.
  induction mm as [|[k' m] mm IH]; simpl; [reflexivity|].
  destruct (String.eqb k k'); [reflexivity|exact IH].
Qed.

Lemma firstEntry_single (ro : RangeOrder) (k : string) (v : Node) :
  Unknown.firstEntry ro [(k, v)] = (k, v).
Proof.
  unfold Unknown.firstEntry, keys. simpl. rewrite range_singleton.
  simpl. rewrite String.eqb_refl. reflexivity.
Qed.

(** A slice-typed value met by anything but a list: [checkAllTags]
    records the key, [checkMembers] walks the value as a list of one. *)
Lemma checkAllTags_slice_not_list (ro : RangeOrder) (sk : list string)
      (mv : Node) (elem : Type_) (key : string) :
  (forall l, mv <> Sequence l) ->
  Unknown.checkAllTags ro sk mv (VSlice elem) key = [key].
Proof.
  intros H. destruct mv; try reflexivity. destruct (H l). reflexivity.
Qed.

Lemma checkMembers_slice_not_list (g : Globals) (mv : Node) (elem : Type_) (cmem : string) :
  (forall l, mv <> Sequence l) ->
  Missing.checkMembers g mv (VSlice elem) cmem =
  Missing.checkMembers g mv (New (sliceElem elem)) cmem.
Proof.
  intros H. rewrite checkMembers_eq at 1. unfold Missing.checkMembersBody. simpl.
  destruct mv; simpl; try apply app_nil_r. destruct (H l). reflexivity.
Qed.

(** A struct met by anything but a map, in [checkMembers]. *)
Lemma checkMembers_struct_not_map (g : Globals) (mv : Node) (n p : string)
      (flds : list (StructField * Value)) (cmem : string) :
  (forall mm, mv <> Mapping mm) ->
  Missing.checkMembers g mv (VStruct n p flds) cmem = [cmem +s n].
Proof.
  intros H. rewrite checkMembers_eq. unfold Missing.checkMembersBody. simpl.
  destruct mv; try reflexivity. destruct (H mm). reflexivity.
Qed.

(** ** The package variables (misc.go) *)

(** C10.  Called with arguments, [SetMxjCast] sets the casting flag to
    the first of them; called with none, it toggles the flag and then
    indexes its empty argument list: the call panics instead of
    returning.  [IgnoreOmitemptyTag], written the same way but with the
    [return] in place, toggles and returns. *)
Theorem SetMxjCast_without_arguments_panics :
  (forall g, exists msg, SetMxjCast [] g = Panic msg) /\
  (forall g b rest, SetMxjCast (b :: rest) g = Ret tt (set_mxjCast b g)) /\
  (forall g, IgnoreOmitemptyTag [] g = Ret tt (set_omitemptyOK (negb (omitemptyOK g)) g)).
Proof.
  split; [|split].
  - intros g. eexists. reflexivity.
  - intros g b rest. reflexivity.
  - intros g. reflexivity.
Qed.

(** ** The examples of the documentation and the tests *)

(** C2.  For [<doc><e1>test</e1></doc>] and the struct with members
    tagged ["e1"] and ["e2"], [MissingXMLTags] returns [["e2"]] and a
    nil error, and the empty string as the root tag: its loop over the
    decoded map does not assign [root].  [MissingXMLTagsMap], whose
    loop does, returns ["doc"]. *)
Theorem MissingXMLTags_doc1 (ro : RangeOrder) (NewMapXml : Decoder) (g : Globals) :
  decodes NewMapXml data1 map1 ->
  skipmembers g = [] ->
  MissingXMLTags ro NewMapXml data1 doc1 g = Ret (["e2"], "", None) g /\
  MissingXMLTagsMap ro NewMapXml data1 doc1 g = Ret (["e2"], map1, "doc", None) g.
Proof.
  intros Hdec Hskip.
  destruct g as [st sm oe mc]. simpl in Hskip. subst sm.
  unfold MissingXMLTags, MissingXMLTagsMap, bind, get.
  rewrite !Hdec. unfold map1. rewrite firstEntry_single.
  split; reflexivity.
Qed.

Lemma MissingXMLTags_doc1_witness :
  MissingXMLTags listedOrder (decoderOf map1) data1 doc1 initial
    = Ret (["e2"], "", None) initial /\
  MissingXMLTagsMap listedOrder (decoderOf map1) data1 doc1 initial
    = Ret (["e2"], map1, "doc", None) initial.
Proof.
  apply (MissingXMLTags_doc1 listedOrder (decoderOf map1) initial).
  - intros cast. reflexivity.
  - reflexivity.
Defined.

(** C1.  TestUnknownTagsSingletonList: the member [Property []string]
    tagged ["xx"] and the document [<yy><xx>1</xx></yy>], where the one
    [xx] element decodes as a string and not as a list.
    [MissingXMLTags] reports nothing, [UnknownXMLTags] reports ["xx"]:
    [checkAllTags] does not take the single value as a list of one. *)
Theorem UnknownXMLTags_singleton_list (ro : RangeOrder) (NewMapXml : Decoder) (g : Globals) :
  decodes NewMapXml dataYY mapYY ->
  skiptags g = [] ->
  UnknownXMLTags ro NewMapXml dataYY structY g = Ret (["xx"], "yy", None) g /\
  MissingXMLTags ro NewMapXml dataYY structY g = Ret ([], "", None) g.
Proof.
  intros Hdec Hskip.
  destruct g as [st sm oe mc]. simpl in Hskip. subst st.
  unfold UnknownXMLTags, MissingXMLTags, bind, get.
  rewrite !Hdec. unfold mapYY. rewrite firstEntry_single. split.
  - simpl. unfold keys. simpl. rewrite range_singleton. reflexivity.
  - cbv -[Missing.skipped]. destruct (Missing.skipped _ _ _); reflexivity.
Qed.

Lemma UnknownXMLTags_singleton_list_witness :
  UnknownXMLTags listedOrder (decoderOf mapYY) dataYY structY initial
    = Ret (["xx"], "yy", None) initial /\
  MissingXMLTags listedOrder (decoderOf mapYY) dataYY structY initial
    = Ret ([], "", None) initial.
Proof.
  apply (UnknownXMLTags_singleton_list listedOrder (decoderOf mapYY) initial).
  - intros cast. reflexivity.
  - reflexivity.
Defined.

(** C3.  A struct member met by a value that is not a map: the one
    entry recorded is the path followed at once by the name of the
    struct type, with no dot between them, and the walk of the branch
    stops.  For [<doc><more>text</more></doc>] and the member [More
    test2] tagged ["more"] the entry is ["moretest2"]. *)
Theorem checkMembers_struct_mismatch_entry (g : Globals) :
  Missing.checkMembers g (Text "text") test2 "more" = ["moretest2"] /\
  Missing.checkMembers g (Text "text") test2 "" = ["test2"] /\
  Missing.checkMembers (set_skipmembers [] g)
    (Mapping [("more", Text "text")]) testMore "" = ["moretest2"].
Proof.
  split; [|split].
  - apply checkMembers_struct_not_map. discriminate.
  - apply checkMembers_struct_not_map. discriminate.
  - destruct g as [st sm oe mc]. reflexivity.
Qed.

(** ** The errors of the entry points *)

(** C7, as stated, fails for [<doc>text</doc>], whose root value is a
    string: [UnknownXMLTags] returns the error with the root name
    ["doc"], not with an empty one, and [MissingXMLTags] returns no
    error at all but the name of the struct type as its one entry (as
    TestMissingXMLTags expects for [<doc></doc>]). *)
Lemma no_elements_not_in_both_directions :
  UnknownXMLTags listedOrder (decoderOf mapText) dataText doc1 initial
    = Ret ([], "doc", Some "no elements") initial /\
  "doc" <> "" /\
  (exists root, MissingXMLTags listedOrder (decoderOf mapText) dataText doc1 initial
    = Ret (["doc1"], root, None) initial).
Proof.
  split; [reflexivity|]. split; [discriminate|]. eexists. reflexivity.
Qed.

(** ** The members to ignore *)

Lemma nonempty_eqb (s : string) : nonempty s = negb (s =? "")%string.
Proof. destruct s; reflexivity. Qed.

Lemma cmemdepth_segments (cmem : string) : Missing.cmemdepth cmem = segments cmem + 1.
Proof. unfold Missing.cmemdepth, segments. destruct (nonempty cmem); reflexivity. Qed.

(** The skip loop of [checkMembers]: a member is skipped exactly when
    some entry has the text of its full path and the depth of the
    level being walked. *)
Lemma skipped_iff (sk : list skipmems) (cmem fn : string) :
  Missing.skipped sk cmem fn = true <->
  exists sm, In sm sk /\ sm_val sm = joinPath cmem fn /\ sm_depth sm = segments cmem + 1.
Proof.
  unfold Missing.skipped. rewrite existsb_exists.
  assert (Hj : forall x, (if nonempty cmem then (cmem +s "." +s fn =? x)%string
                          else (fn =? x)%string) = (joinPath cmem fn =? x)%string).
  { intros x. unfold joinPath. rewrite nonempty_eqb.
    destruct (cmem =? "")%string; reflexivity. }
  split; intros (sm & Hin & H); exists sm; (split; [exact Hin|]).
  - rewrite Hj in H. rewrite cmemdepth_segments in H.
    destruct (Nat.eqb_spec (segments cmem + 1) (sm_depth sm)) as [E|E]; simpl in H;
      [|discriminate].
    apply String.eqb_eq in H. auto.
  - destruct H as [Hv Hd]. rewrite Hj, cmemdepth_segments, Hd, Nat.eqb_refl. simpl.
    apply String.eqb_eq. auto.
Qed.

(** The entry ["a.b"], of depth 2, excludes the member [b] of the
    member [a]; it does not exclude a top-level member tagged ["a.b"],
    whose path has the same text. *)
Example ignore_entry_at_its_depth_only :
  Missing.skipped [{| sm_val := "a.b"; sm_depth := 2 |}] "a" "b" = true /\
  Missing.skipped [{| sm_val := "a.b"; sm_depth := 2 |}] "" "a.b" = false.
Proof. split; reflexivity. Qed.

(** ** Members tagged ["-"] *)

Lemma checkAllTags_mapping (ro : RangeOrder) (sk : list string) (mm : Map)
      (n p : string) (flds : list (StructField * Value)) (key : string) :
  Unknown.checkAllTags ro sk (Mapping mm) (VStruct n p flds) key =
  flat_map (entriesAt ro sk (Unknown.buildFields flds) key mm) (ro (keys mm)).
Proof.
  simpl. apply flat_map_ext_in. intros k _. apply atKey_lookup.
Qed.

Lemma fold_fields_keeps (k : string) (flds : list (StructField * Value)) :
  forall acc : list (string * Unknown.fieldSpec),
    lookup k acc <> None ->
    lookup k (fold_left (fun fields f =>
                           match Unknown.fieldKey f with
                           | Some e => e :: fields
                           | None => fields
                           end) flds acc) <> None.
Proof.
  induction flds as [|f flds IH]; intros acc H; simpl; [exact H|].
  apply IH. destruct (Unknown.fieldKey f) as [[k' sp]|]; [|exact H].
  simpl. destruct (String.eqb k k'); [discriminate|exact H].
Qed.

Lemma fieldKey_ignored (sf : StructField) (fv : Value) :
  nonempty (PkgPath sf) = false ->
  isXMLName fv = false ->
  first (tagPath sf) = "-" ->
  Unknown.fieldKey (sf, fv) = Some (declaredKey sf, {| Unknown.val := fv; Unknown.tag := [""] |}).
Proof.
  intros He Hx Ht. unfold Unknown.fieldKey, declaredKey. rewrite He, Hx, Ht. simpl.
  destruct (hasOption "attr" sf); reflexivity.
Qed.

Lemma fieldOf_ignored (sf : StructField) (fv : Value) :
  first (tagPath sf) = "-" -> Missing.fieldOf (sf, fv) = None.
Proof.
  intros Ht. unfold Missing.fieldOf. rewrite Ht. simpl.
  destruct (nonempty (PkgPath sf)); [reflexivity|].
  destruct (isXMLName fv); reflexivity.
Qed.

(** ** Repeated calls *)

Lemma lookup_In {A} (k : string) (m : list (string * A)) (v : A) :
  lookup k m = Some v -> In (k, v) m.
Proof.
  induction m as [|[k' v'] m IH]; simpl; [discriminate|].
  destruct (String.eqb_spec k k') as [->|_].
  - intros [= ->]. left. reflexivity.
  - intros H. right. apply IH, H.
Qed.

Lemma flat_map_pointwise_perm {A B} (f g : A -> list B) (l l' : list A) :
  Permutation l l' ->
  (forall x, In x l -> Permutation (f x) (g x)) ->
  Permutation (flat_map f l) (flat_map g l').
Proof.
  intros Hl Hfg. transitivity (flat_map g l).
  - clear Hl. induction l as [|a l IH]; simpl; [constructor|].
    apply Permutation_app; [apply Hfg; left; reflexivity|].
    apply IH. intros x Hx. apply Hfg. right. exact Hx.
  - apply Permutation_flat_map, Hl.
Qed.

Lemma checkAllTags_ptr (ro : RangeOrder) (sk : list string) (mv : Node) (v : Value) (key : string) :
  ValueKind v <> KPtr ->
  Unknown.checkAllTags ro sk mv (VPtr v) key = Unknown.checkAllTags ro sk mv v key.
Proof.
  intros H. destruct v; try (destruct (H eq_refl)); destruct mv; reflexivity.
Qed.

Lemma checkAllTags_ptr_ptr (ro : RangeOrder) (sk : list string) (mv : Node) (v : Value) (key : string) :
  ValueKind v = KPtr ->
  Unknown.checkAllTags ro sk mv (VPtr v) key = [].
Proof.
  intros H. destruct v; try discriminate; destruct mv; reflexivity.
Qed.

(** Two walks of [checkAllTags] over one document record the same
    entries, whatever the order in which each visits the maps. *)
Lemma checkAllTags_perm (ro1 ro2 : RangeOrder) (sk : list string) (mv : Node) :
  forall val key,
    Permutation (Unknown.checkAllTags ro1 sk mv val key)
                (Unknown.checkAllTags ro2 sk mv val key).
Proof.
  induction mv as [| s | b | l | mm IH | l IH] using Node_nested_ind; intros val key.
  1-4: destruct val as [| | |[| | | | |]| |]; simpl; apply Permutation_refl.
  - assert (Hs : forall n p flds,
               Permutation (Unknown.checkAllTags ro1 sk (Mapping mm) (VStruct n p flds) key)
                           (Unknown.checkAllTags ro2 sk (Mapping mm) (VStruct n p flds) key)).
    { intros n p flds. rewrite !checkAllTags_mapping.
      apply flat_map_pointwise_perm.
      - transitivity (keys mm); [apply order_perm|apply Permutation_sym, order_perm].
      - intros k _. unfold entriesAt.
        destruct (lookup k mm) as [m|] eqn:E; [|constructor].
        apply lookup_In in E. rewrite Forall_forall in IH. specialize (IH _ E). simpl in IH.
        unfold Unknown.checkKey. destruct (Unknown.skipped sk key k); [constructor|].
        destruct (lookup k (Unknown.buildFields flds)); [apply IH|apply Permutation_refl]. }
    destruct val as [| | |[| | | | |]| |]; try (simpl; apply Permutation_refl);
      rewrite ?checkAllTags_ptr by discriminate; apply Hs.
  - assert (Hs : forall e,
               Permutation (Unknown.checkAllTags ro1 sk (Sequence l) (VSlice e) key)
                           (Unknown.checkAllTags ro2 sk (Sequence l) (VSlice e) key)).
    { intros e. simpl. apply flat_map_pointwise_perm; [apply Permutation_refl|].
      intros x Hx. rewrite Forall_forall in IH. apply IH, Hx. }
    destruct val as [| | |[| | | | |]| |]; try (simpl; apply Permutation_refl);
      rewrite ?checkAllTags_ptr by discriminate; apply Hs.
Qed.

Lemma firstEntry_singleRoot (ro1 ro2 : RangeOrder) (m : Map) :
  singleRoot m -> Unknown.firstEntry ro1 m = Unknown.firstEntry ro2 m.
Proof.
  unfold singleRoot. destruct m as [|[k v] [|e m]]; simpl; intros H.
  - unfold Unknown.firstEntry, keys. simpl. rewrite !range_nil. reflexivity.
  - rewrite !firstEntry_single. reflexivity.
  - lia.
Qed.

(** C9, as stated, fails for [UnknownXMLTags]: its entries come in the
    order in which [range] visits the keys of the document's maps, and
    that order may differ from one call to the next.  For
    [<doc><a>1</a><b>2</b></doc>] and a struct with no members, one
    call may return [a b] and another [b a]. *)
Lemma unknown_entries_follow_range_order :
  UnknownXMLTags listedOrder (decoderOf mapAB) dataAB emptyStruct initial
    = Ret (["a"; "b"], "doc", None) initial /\
  UnknownXMLTags reversedOrder (decoderOf mapAB) dataAB emptyStruct initial
    = Ret (["b"; "a"], "doc", None) initial /\
  UnknownXMLTags listedOrder (decoderOf mapAB) dataAB emptyStruct initial
    <> UnknownXMLTags reversedOrder (decoderOf mapAB) dataAB emptyStruct initial.
Proof.
  split; [reflexivity|]. split; [reflexivity|]. discriminate.
Qed.

(** C9, as the code has it.  For a document with one root, a struct
    value and a state of the package variables, two calls of
    [MissingXMLTags] have the same outcome, entry for entry, whatever
    the order in which each visits the maps; two calls of
    [UnknownXMLTags] return the same root, the same error and the same
    entries, the entries of one being a permutation of those of the
    other.  Every call leaves the package variables as they were; the
    document and the struct value are arguments that no call
    assigns to. *)
Theorem repeated_calls (ro1 ro2 : RangeOrder) (NewMapXml : Decoder)
        (g : Globals) (b : string) (val : Value) :
  singleRoot (fst (NewMapXml b [])) ->
  (MissingXMLTags ro1 NewMapXml b val g = MissingXMLTags ro2 NewMapXml b val g /\
   (forall r g', MissingXMLTags ro1 NewMapXml b val g = Ret r g' -> g' = g)) /\
  (exists s1 s2 root err,
      UnknownXMLTags ro1 NewMapXml b val g = Ret (s1, root, err) g /\
      UnknownXMLTags ro2 NewMapXml b val g = Ret (s2, root, err) g /\
      Permutation s1 s2).
Proof.
  intros Hroot. unfold MissingXMLTags, UnknownXMLTags, bind, get.
  destruct (NewMapXml b []) as [m [e|]]; simpl in *.
  - split; [split; [reflexivity|intros r g' [= _ <-]; reflexivity]|].
    exists [], [], "", (Some e). repeat split; constructor.
  - rewrite (firstEntry_singleRoot ro1 ro2 m Hroot).
    destruct (Unknown.firstEntry ro2 m) as [root v]. simpl.
    destruct (isMapOrList v); simpl; unfold ret.
    + split; [split; [reflexivity|intros r g' [= _ <-]; reflexivity]|].
      do 4 eexists. split; [reflexivity|]. split; [reflexivity|].
      apply checkAllTags_perm.
    + split.
      * split; [reflexivity|]. destruct val; simpl; unfold panic, ret;
          intros r g'; try discriminate; intros [= _ <-]; reflexivity.
      * exists [], [], root, (Some "no elements"). repeat split; constructor.
Qed.

Lemma repeated_calls_witness :
  exists s1 s2 root err,
    UnknownXMLTags listedOrder (decoderOf mapAB) dataAB emptyStruct initial
      = Ret (s1, root, err) initial /\
    UnknownXMLTags reversedOrder (decoderOf mapAB) dataAB emptyStruct initial
      = Ret (s2, root, err) initial /\
    Permutation s1 s2.
Proof.
  apply (repeated_calls listedOrder reversedOrder (decoderOf mapAB) initial dataAB emptyStruct).
  unfold singleRoot. simpl. lia.
Defined.

(** ** The entries are paths *)


Lemma append_nonempty (a b : string) : a <> "" -> a +s b <> "".
Proof. destruct a; [congruence|discriminate]. Qed.



Lemma checkMembers_ptr (g : Globals) (mv : Node) (v : Value) (cmem : string) :
  ValueKind v <> KPtr ->
  Missing.checkMembers g mv (VPtr v) cmem = Missing.checkMembers g mv v cmem.
Proof.
  intros H. rewrite (checkMembers_eq g mv (VPtr v)), (checkMembers_eq g mv v).
  destruct v; try (destruct (H eq_refl)); reflexivity.
Qed.

Lemma checkMembers_ptr_ptr (g : Globals) (mv : Node) (v : Value) (cmem : string) :
  ValueKind v = KPtr ->
  Missing.checkMembers g mv (VPtr v) cmem = [].
Proof.
  intros H. rewrite checkMembers_eq. destruct v; try discriminate; reflexivity.
Qed.


(** * Further properties of the package *)

(** ** HasTags *)

Lemma lookup_marked (v : string) (result : list string) :
  forall acc : list (string * bool),
    lookup v (fold_left (fun r x => (x, true) :: r) result acc) = None <->
    ~ In v result /\ lookup v acc = None.
Proof.
  induction result as [|x result IH]; intros acc; simpl.
  - tauto.
  - rewrite IH. simpl. destruct (String.eqb_spec v x) as [->|Hne].
    + split; [intros [_ H]; discriminate|intros [H _]; destruct H; auto].
    + split; intros [H1 H2]; (split; [|exact H2]); intuition congruence.
Qed.

Lemma HasTags_missing (result check : list string) (v : string) :
  In v (flat_map (fun v => match lookup v (fold_left (fun r x => (x, true) :: r) result [])
                           with Some _ => [] | None => [v] end) check) <->
  In v check /\ ~ In v result.
Proof.
  rewrite in_flat_map. split.
  - intros (x & Hx & Hin).
    destruct (lookup x _) eqn:E; [destruct Hin|]. destruct Hin as [<-|[]].
    apply lookup_marked in E. tauto.
  - intros [Hc Hr]. exists v. split; [exact Hc|].
    destruct (lookup v _) eqn:E; [|left; reflexivity].
    assert (lookup v (fold_left (fun r x => (x, true) :: r) result []) = None)
      by (apply lookup_marked; auto).
    congruence.
Qed.

(** X1.  [HasTags] answers [true], with no values, exactly when every
    value to check is among the result; otherwise it answers [false]
    with the values to check that the result lacks, and only those:
    the list is then not empty, and keeps the order and the repeats of
    the values given. *)
Theorem HasTags_reports_what_is_lacking (result check : list string) :
  (fst (HasTags result check) = true <-> incl check result) /\
  (fst (HasTags result check) = true -> snd (HasTags result check) = []) /\
  (fst (HasTags result check) = false -> snd (HasTags result check) <> []) /\
  (forall v, In v (snd (HasTags result check)) <-> In v check /\ ~ In v result) /\
  (fst (HasTags result check) = false ->
   snd (HasTags result check)
   = filter (fun v => negb (existsb (String.eqb v) result)) check).
Proof.
  unfold HasTags.
  set (missing := flat_map _ check).
  assert (Hm : forall v, In v missing <-> In v check /\ ~ In v result)
    by (intros v; apply HasTags_missing).
  assert (Hf : missing = filter (fun v => negb (existsb (String.eqb v) result)) check).
  { subst missing. clear Hm. induction check as [|c check IH]; simpl; [reflexivity|].
    rewrite IH. destruct (lookup c _) eqn:E.
    - assert (Hin : In c result).
      { destruct (in_dec string_dec c result) as [H|H]; [exact H|].
        assert (lookup c (fold_left (fun r x => (x, true) :: r) result []) = None)
          by (apply lookup_marked; auto). congruence. }
      assert (existsb (String.eqb c) result = true)
        by (apply existsb_exists; exists c; split; [exact Hin|apply String.eqb_refl]).
      rewrite H. reflexivity.
    - apply lookup_marked in E. destruct E as [Hnin _].
      destruct (existsb (String.eqb c) result) eqn:Ex; [|reflexivity].
      apply existsb_exists in Ex. destruct Ex as (x & Hx & Heq).
      apply String.eqb_eq in Heq. subst x. contradiction. }
  destruct missing as [|m missing'] eqn:Em; simpl.
  - split; [|split; [|split; [|split]]].
    + split; [|reflexivity]. intros _ v Hv.
      destruct (in_dec string_dec v result) as [H|H]; [exact H|].
      destruct (proj2 (Hm v) (conj Hv H)).
    + reflexivity.
    + discriminate.
    + intros v. split; [intros []|]. intros H. apply Hm in H. destruct H.
    + discriminate.
  - split; [|split; [|split; [|split]]].
    + split; [discriminate|]. intros Hincl.
      destruct (proj1 (Hm m) (or_introl eq_refl)) as [Hc Hr]. destruct (Hr (Hincl _ Hc)).
    + discriminate.
    + discriminate.
    + exact Hm.
    + intros _. exact Hf.
Qed.

Example HasTags_test :
  HasTags ["this.Is.a.test"; "of"; "some.Dummy.values"] ["this.Is.a.test"; "of"] = (true, []) /\
  HasTags ["this.Is.a.test"; "of"; "some.Dummy.values"] ["this.Is"; "some.values"]
  = (false, ["this.Is"; "some.values"]).
Proof. split; reflexivity. Qed.

(** ** The members of a struct, as the two walks see them *)

Lemma first_setFirst (x : string) (l : list string) :
  l <> [] -> first (Missing.setFirst x l) = x.
Proof. destruct l; [congruence|reflexivity]. Qed.

(** X2.  The two walks agree on the names of the members: a member
    that [checkMembers] looks for is entered in the field table of
    [checkAllTags] under the very name [checkMembers] looks it up by
    (the first segment of its xml tag, else its field name; with the
    ["-"] prefix for an attribute), and with the same value. *)
Theorem walks_agree_on_member_names (f : StructField * Value) (fs : Missing.fieldSpec) :
  Missing.fieldOf f = Some fs ->
  exists spec,
    Unknown.fieldKey f = Some (Missing.lookupName fs, spec) /\
    Unknown.val spec = Missing.val fs.
Proof.
  destruct f as [sf fv]. unfold Missing.fieldOf, Unknown.fieldKey, Missing.lookupName.
  destruct (nonempty (PkgPath sf)); [discriminate|].
  destruct (isXMLName fv); [discriminate|].
  destruct (first (tagPath sf) =? "-")%string eqn:Edash; [discriminate|].
  pose proof (Split_nonempty (first (tagOptions sf)) gt) as Hne. fold (tagPath sf) in Hne.
  destruct (hasOption "attr" sf).
  - destruct (String.eqb_spec (first (tagPath sf)) "") as [E0|E0].
    + intros [= <-]. cbn [Missing.tag Missing.name Missing.val]. rewrite E0.
      eexists. split; reflexivity.
    + intros [= <-]. cbn [Missing.tag Missing.name Missing.val].
      rewrite (first_setFirst _ _ Hne). eexists. split; reflexivity.
  - intros [= <-]. cbn [Missing.tag Missing.name Missing.val]. rewrite nonempty_eqb.
    destruct (first (tagPath sf) =? "")%string; simpl; eexists; split; reflexivity.
Qed.

Lemma walks_agree_on_member_names_witness :
  exists spec,
    Unknown.fieldKey (field "Attr" "attr,attr", VString) = Some ("-attr", spec) /\
    Unknown.val spec = VString.
Proof.
  apply (walks_agree_on_member_names
           (field "Attr" "attr,attr", VString)
           {| Missing.name := "-Attr"; Missing.val := VString;
              Missing.tag := ["-attr"]; Missing.omitempty := false |}).
  reflexivity.
Defined.

Lemma unknown_buildFields_app (flds1 flds2 : list (StructField * Value)) :
  Unknown.buildFields (flds1 ++ flds2) =
  fold_left (fun fields f =>
               match Unknown.fieldKey f with
               | Some e => e :: fields
               | None => fields
               end) flds2 (Unknown.buildFields flds1).
Proof. unfold Unknown.buildFields. apply fold_left_app. Qed.

(** X3.  A member that is not exported, or whose type is [xml.Name],
    is invisible to both walks: each walk of the struct is the walk of
    the struct without that member. *)
Theorem unexported_and_xmlname_members_invisible
        (sf : StructField) (fv : Value)
        (flds1 flds2 : list (StructField * Value)) (n p : string) :
  nonempty (PkgPath sf) = true \/ isXMLName fv = true ->
  (forall ro sk mv key,
      Unknown.checkAllTags ro sk mv (VStruct n p (flds1 ++ (sf, fv) :: flds2)) key =
      Unknown.checkAllTags ro sk mv (VStruct n p (flds1 ++ flds2)) key) /\
  (forall g mv cmem,
      Missing.checkMembers g mv (VStruct n p (flds1 ++ (sf, fv) :: flds2)) cmem =
      Missing.checkMembers g mv (VStruct n p (flds1 ++ flds2)) cmem).
Proof.
  intros H.
  assert (HU : Unknown.fieldKey (sf, fv) = None).
  { unfold Unknown.fieldKey. destruct (nonempty (PkgPath sf)); [reflexivity|].
    destruct H as [H|H]; [discriminate|]. rewrite H. reflexivity. }
  assert (HM : Missing.fieldOf (sf, fv) = None).
  { unfold Missing.fieldOf. destruct (nonempty (PkgPath sf)); [reflexivity|].
    destruct H as [H|H]; [discriminate|]. rewrite H. reflexivity. }
  split.
  - intros ro sk mv key.
    assert (E : Unknown.buildFields (flds1 ++ (sf, fv) :: flds2)
                = Unknown.buildFields (flds1 ++ flds2)).
    { rewrite !unknown_buildFields_app. cbn [fold_left]. rewrite HU. reflexivity. }
    destruct mv; try reflexivity. rewrite !checkAllTags_mapping, E. reflexivity.
  - intros g mv cmem.
    rewrite (checkMembers_eq g mv (VStruct n p (flds1 ++ (sf, fv) :: flds2))).
    rewrite (checkMembers_eq g mv (VStruct n p (flds1 ++ flds2))).
    unfold Missing.checkMembersBody. simpl. destruct mv; try reflexivity.
    f_equal. unfold Missing.buildFields. rewrite !flat_map_app. cbn [flat_map].
    rewrite HM. reflexivity.
Qed.

(** TestUnknownXMLTags: [XMLName xml.Name `xml:"Doc"`]. *)
Lemma unexported_and_xmlname_members_invisible_witness :
  Unknown.checkAllTags listedOrder [] (Mapping [("Ok", Text "true"); ("XMLName", Text "x")])
    (VStruct "test" "checkxml"
       ([] ++ (field "XMLName" "Doc",
               VStruct "Name" "encoding/xml"
                 [(field "Space" "", VString); (field "Local" "", VString)])
           :: [(field "Ok" "", VBool)])) "" =
  Unknown.checkAllTags listedOrder [] (Mapping [("Ok", Text "true"); ("XMLName", Text "x")])
    (VStruct "test" "checkxml" ([] ++ [(field "Ok" "", VBool)])) "".
Proof.
  apply (unexported_and_xmlname_members_invisible
           (field "XMLName" "Doc")
           (VStruct "Name" "encoding/xml"
              [(field "Space" "", VString); (field "Local" "", VString)])
           [] [(field "Ok" "", VBool)] "test" "checkxml").
  right. reflexivity.
Defined.

(** ** Pointers *)

(** X4.  Both walks take a pointer to a value as the value itself, so
    that [new(T)] can be passed for [T{}]; a nil pointer and a pointer
    to a pointer are not walked at all, whatever the document holds. *)
Theorem pointers_are_followed_once (v : Value) :
  (ValueKind v <> KPtr ->
   (forall ro sk mv key,
       Unknown.checkAllTags ro sk mv (VPtr v) key = Unknown.checkAllTags ro sk mv v key) /\
   (forall g mv cmem,
       Missing.checkMembers g mv (VPtr v) cmem = Missing.checkMembers g mv v cmem)) /\
  (ValueKind v = KPtr ->
   (forall ro sk mv key, Unknown.checkAllTags ro sk mv (VPtr v) key = []) /\
   (forall g mv cmem, Missing.checkMembers g mv (VPtr v) cmem = [])) /\
  (forall e,
      (forall ro sk mv key, Unknown.checkAllTags ro sk mv (VNilPtr e) key = []) /\
      (forall g mv cmem, Missing.checkMembers g mv (VNilPtr e) cmem = [])).
Proof.
  split; [|split].
  - intros H. split; intros.
    + apply checkAllTags_ptr, H.
    + apply checkMembers_ptr, H.
  - intros H. split; intros.
    + apply checkAllTags_ptr_ptr, H.
    + apply checkMembers_ptr_ptr, H.
  - intros e. split; intros.
    + destruct mv; reflexivity.
    + rewrite checkMembers_eq. reflexivity.
Qed.

(** ** The walks read the shape of the document only *)

Lemma lookup_shape (k : string) (mm : Map) :
  lookup k (map (fun e => (fst e, shape (snd e))) mm) = option_map shape (lookup k mm).
Proof.
  induction mm as [|[k' m] mm IH]; simpl; [reflexivity|].
  destruct (String.eqb k k'); [reflexivity|exact IH].
Qed.

Lemma keys_shape (mm : Map) : keys (map (fun e => (fst e, shape (snd e))) mm) = keys mm.
Proof. unfold keys. rewrite map_map. reflexivity. Qed.

Lemma checkAllTags_shape (ro : RangeOrder) (sk : list string) (mv : Node) :
  forall val key,
    Unknown.checkAllTags ro sk (shape mv) val key = Unknown.checkAllTags ro sk mv val key.
Proof.
  induction mv as [| s | b | l | mm IH | l IH] using Node_nested_ind; intros val key.
  1-4: destruct val as [| | |[| | | | |]| |]; reflexivity.
  - assert (Hs : forall n p flds,
               Unknown.checkAllTags ro sk (shape (Mapping mm)) (VStruct n p flds) key =
               Unknown.checkAllTags ro sk (Mapping mm) (VStruct n p flds) key).
    { intros n p flds. cbn [shape]. rewrite !checkAllTags_mapping, keys_shape.
      apply flat_map_ext_in. intros k _. unfold entriesAt. rewrite lookup_shape.
      destruct (lookup k mm) as [m|] eqn:E; [|reflexivity]. simpl.
      rewrite Forall_forall in IH. specialize (IH _ (lookup_In _ _ _ E)). simpl in IH.
      unfold Unknown.checkKey. destruct (Unknown.skipped sk key k); [reflexivity|].
      destruct (lookup k (Unknown.buildFields flds)); [apply IH|reflexivity]. }
    destruct val as [| | |[| | | | |]| |]; try reflexivity;
      rewrite ?checkAllTags_ptr by discriminate; apply Hs.
  - assert (Hs : forall e,
               Unknown.checkAllTags ro sk (shape (Sequence l)) (VSlice e) key =
               Unknown.checkAllTags ro sk (Sequence l) (VSlice e) key).
    { intros e. simpl. rewrite flat_map_concat_map, map_map, <- flat_map_concat_map.
      apply flat_map_ext_in. intros x Hx. rewrite Forall_forall in IH. apply IH, Hx. }
    destruct val as [| | |[| | | | |]| |]; try reflexivity;
      rewrite ?checkAllTags_ptr by discriminate; apply Hs.
Qed.

Lemma checkMembers_shape (g : Globals) (d : nat) :
  forall val, Missing.vdepth val < d ->
  forall mv cmem,
    Missing.checkMembers g (shape mv) val cmem = Missing.checkMembers g mv val cmem.
Proof.
  induction d as [|d IH]; intros val Hd mv cmem; [lia|].
  assert (Hslice : forall el, Missing.vdepth (VSlice el) <= d ->
             Missing.checkMembers g (shape mv) (VSlice el) cmem =
             Missing.checkMembers g mv (VSlice el) cmem).
  { intros el Hel.
    assert (Hsv : Missing.vdepth (New (sliceElem el)) < d).
    { unfold New. simpl in *. rewrite vdepth_Zero. pose proof (tdepth_sliceElem el). lia. }
    rewrite (checkMembers_eq g (shape mv)), (checkMembers_eq g mv).
    unfold Missing.checkMembersBody. simpl ValueKind. cbv iota.
    destruct mv; cbn [shape flat_map]; rewrite ?app_nil_r;
      try (apply (IH _ Hsv Nil)); try (apply (IH _ Hsv (Text s)));
      try (apply (IH _ Hsv (Boolean b))); try (apply (IH _ Hsv (Number lit))).
    - rewrite <- (IH _ Hsv (Mapping mm)). reflexivity.
    - rewrite flat_map_concat_map, map_map, <- flat_map_concat_map.
      apply flat_map_ext_in. intros x _. apply IH, Hsv. }
  assert (Hstruct : forall n p flds, Missing.vdepth (VStruct n p flds) <= d ->
             Missing.checkMembers g (shape mv) (VStruct n p flds) cmem =
             Missing.checkMembers g mv (VStruct n p flds) cmem).
  { intros n p flds Hs.
    rewrite (checkMembers_eq g (shape mv)), (checkMembers_eq g mv).
    unfold Missing.checkMembersBody. simpl ValueKind. cbv iota.
    destruct mv; try reflexivity. cbn [shape].
    apply flat_map_ext_in. intros fs Hfs.
    assert (Hfd : Missing.vdepth (Missing.val fs) < d).
    { apply buildFields_In in Hfs. destruct Hfs as (f & Hf & E).
      rewrite (fieldOf_val _ _ E). pose proof (vdepth_field _ _ Hf). simpl in Hs. lia. }
    unfold Missing.checkField. destruct (Missing.skipped _ _ _); [reflexivity|].
    unfold Missing.lookForField. rewrite lookup_shape.
    destruct (lookup (Missing.lookupName fs) mm) as [v|]; simpl; [|reflexivity].
    apply IH, Hfd. }
  destruct val as [| | |v|el|n p flds].
  - rewrite !checkMembers_eq. reflexivity.
  - rewrite !checkMembers_eq. reflexivity.
  - rewrite !checkMembers_eq. reflexivity.
  - simpl in Hd.
    destruct v as [| | |v'|el|n p flds];
      rewrite ?checkMembers_ptr_ptr by reflexivity;
      rewrite ?checkMembers_ptr by discriminate;
      try reflexivity; try (rewrite !checkMembers_eq; reflexivity).
    + apply Hslice. lia.
    + apply Hstruct. lia.
  - apply Hslice. lia.
  - apply Hstruct. lia.
Qed.

(** X5.  The walks read the shape of the document only: its maps,
    keys and lists.  Two documents that differ only in their values
    that are neither map nor list (a string where the other has a cast
    [bool] or [float64], or nil) give the same entries in both
    directions, so the casting flag cannot change what is reported. *)
Theorem walks_read_the_shape_only (mv mv' : Node) :
  shape mv = shape mv' ->
  (forall ro sk val key,
      Unknown.checkAllTags ro sk mv val key = Unknown.checkAllTags ro sk mv' val key) /\
  (forall g val cmem,
      Missing.checkMembers g mv val cmem = Missing.checkMembers g mv' val cmem).
Proof.
  intros H. split.
  - intros ro sk val key.
    rewrite <- (checkAllTags_shape ro sk mv), <- (checkAllTags_shape ro sk mv'), H.
    reflexivity.
  - intros g val cmem.
    rewrite <- (checkMembers_shape g (S (Missing.vdepth val)) val (Nat.lt_succ_diag_r _) mv).
    rewrite <- (checkMembers_shape g (S (Missing.vdepth val)) val (Nat.lt_succ_diag_r _) mv').
    rewrite H. reflexivity.
Qed.

(** [<doc><ok>true</ok></doc>], not cast and cast. *)
Lemma walks_read_the_shape_only_witness :
  Missing.checkMembers initial (Mapping [("ok", Text "true")]) doc1 "" =
  Missing.checkMembers initial (Mapping [("ok", Boolean true)]) doc1 "".
Proof.
  apply (walks_read_the_shape_only (Mapping [("ok", Text "true")])
                                   (Mapping [("ok", Boolean true)])).
  reflexivity.
Defined.

(** ** Tags to ignore *)

Lemma unknown_skipped_iff (sk : list string) (key k : string) :
  Unknown.skipped sk key k = true <-> In (joinPath key k) sk.
Proof.
  unfold Unknown.skipped. rewrite existsb_exists. unfold joinPath.
  destruct (key =? "")%string; simpl; split.
  - intros (x & Hx & H). destruct (String.eqb_spec k x) as [->|_]; [exact Hx|discriminate].
  - intros H. exists k. split; [exact H|]. rewrite String.eqb_refl. reflexivity.
  - intros (x & Hx & H). apply String.eqb_eq in H. subst x. exact Hx.
  - intros H. eexists. split; [exact H|]. apply String.eqb_refl.
Qed.

Lemma checkAllTags_never_ignored (ro : RangeOrder) (sk : list string) (mv : Node) :
  forall val key e,
    In e (Unknown.checkAllTags ro sk mv val key) -> In e sk -> e = key.
Proof.
  assert (Hkey : forall key e : string, In e [key] -> In e sk -> e = key).
  { intros key e [<-|[]] _. reflexivity. }
  induction mv as [| s | b | l | mm IH | l IH] using Node_nested_ind; intros val key e.
  1-4: destruct val as [| | |[| | | | |]| |]; simpl; try tauto; apply Hkey.
  - assert (Hs : forall n p flds,
               In e (Unknown.checkAllTags ro sk (Mapping mm) (VStruct n p flds) key) ->
               In e sk -> e = key).
    { intros n p flds. rewrite checkAllTags_mapping, in_flat_map.
      intros (k & _ & Hin) Hsk. exfalso. unfold entriesAt in Hin.
      destruct (lookup k mm) as [m|] eqn:E; [|destruct Hin].
      unfold Unknown.checkKey in Hin.
      destruct (Unknown.skipped sk key k) eqn:Es; [destruct Hin|].
      assert (Hns : ~ In (joinPath key k) sk).
      { intros H. apply unknown_skipped_iff in H. congruence. }
      destruct (lookup k (Unknown.buildFields flds)) as [spec|].
      - rewrite Forall_forall in IH. specialize (IH _ (lookup_In _ _ _ E)). simpl in IH.
        specialize (IH _ _ _ Hin Hsk). subst e. contradiction.
      - destruct Hin as [<-|[]]. contradiction. }
    destruct val as [| | |[| | | | |]| |]; try (simpl; tauto); try (simpl; apply Hkey);
      rewrite ?checkAllTags_ptr by discriminate; apply Hs.
  - assert (Hs : forall el,
               In e (Unknown.checkAllTags ro sk (Sequence l) (VSlice el) key) ->
               In e sk -> e = key).
    { intros el. simpl. rewrite in_flat_map. intros (x & Hx & Hin) Hsk.
      rewrite Forall_forall in IH. apply (IH _ Hx _ _ _ Hin Hsk). }
    destruct val as [| | |[| | | | |]| |]; try (simpl; tauto); try (simpl; apply Hkey);
      rewrite ?checkAllTags_ptr by discriminate; apply Hs.
Qed.

(** X6.  A tag to ignore silences its whole subtree: after
    [SetTagsToIgnore(tags...)] with a first tag that is not empty,
    [UnknownXMLTags] returns no path that is among the tags, the empty
    path of a misfit root apart; and what it returns for a document key
    whose path is among the tags is nothing at all, for the key and for
    everything below it. *)
Theorem ignored_tags_are_never_reported (ro : RangeOrder) (NewMapXml : Decoder)
        (g : Globals) (t : string) (tags : list string) (b : string) (val : Value) :
  t <> "" ->
  exists g',
    SetTagsToIgnore (t :: tags) g = Ret tt g' /\
    (forall s root err g'',
        UnknownXMLTags ro NewMapXml b val g' = Ret (s, root, err) g'' ->
        forall e, In e s -> In e (t :: tags) -> e = "") /\
    (forall fields key mm k,
        In (joinPath key k) (t :: tags) ->
        entriesAt ro (skiptags g') fields key mm k = []).
Proof.
  intros Ht. exists (set_skiptags (t :: tags) g). split; [|split].
  - unfold SetTagsToIgnore, bind, get. destruct (String.eqb_spec t "") as [E|_]; [contradiction|].
    reflexivity.
  - intros s root err g''. unfold UnknownXMLTags, bind, get.
    destruct (NewMapXml b []) as [m [e'|]]; simpl.
    + intros [= <- _ _ _] e [].
    + destruct (Unknown.firstEntry ro m) as [r v]. simpl.
      destruct (isMapOrList v); simpl; unfold ret.
      * intros [= <- _ _ _] e He Hin.
        apply (checkAllTags_never_ignored _ _ _ _ _ _ He Hin).
      * intros [= <- _ _ _] e [].
  - intros fields key mm k Hin. unfold entriesAt, Unknown.checkKey.
    destruct (lookup k mm); [|reflexivity].
    apply unknown_skipped_iff in Hin. simpl skiptags. rewrite Hin. reflexivity.
Qed.

(** TestUnknownXMLTagsToIgnore *)
Lemma ignored_tags_are_never_reported_witness :
  exists g',
    SetTagsToIgnore ["Why.maybenot"; "not"; "Why.-attr"] initial = Ret tt g' /\
    (forall fields key mm k,
        In (joinPath key k) ["Why.maybenot"; "not"; "Why.-attr"] ->
        entriesAt listedOrder (skiptags g') fields key mm k = []).
Proof.
  destruct (ignored_tags_are_never_reported listedOrder (decoderOf mapAB) initial
              "Why.maybenot" ["not"; "Why.-attr"] dataAB emptyStruct)
    as (g' & Hset & _ & Hent); [discriminate|].
  exists g'. split; [exact Hset|exact Hent].
Defined.

(** ** What is reported, and what is not *)

Lemma unknown_lookup_None (k : string) (flds : list (StructField * Value)) :
  (forall f spec, In f flds -> Unknown.fieldKey f <> Some (k, spec)) ->
  lookup k (Unknown.buildFields flds) = None.
Proof.
  unfold Unknown.buildFields.
  assert (H : forall acc, lookup k acc = None ->
             (forall f spec, In f flds -> Unknown.fieldKey f <> Some (k, spec)) ->
             lookup k (fold_left (fun fields f =>
                                    match Unknown.fieldKey f with
                                    | Some e => e :: fields
                                    | None => fields
                                    end) flds acc) = None).
  { induction flds as [|f flds IH]; intros acc Hacc Hf; simpl; [exact Hacc|].
    apply IH; [|intros f' spec Hin; apply Hf; right; exact Hin].
    destruct (Unknown.fieldKey f) as [[k' sp]|] eqn:E; [|exact Hacc].
    simpl. destruct (String.eqb_spec k k') as [->|_]; [|exact Hacc].
    destruct (Hf f sp (or_introl eq_refl)). exact E. }
  apply H. reflexivity.
Qed.

Lemma lookup_keys {A} (k : string) (m : list (string * A)) (v : A) :
  lookup k m = Some v -> In k (keys m).
Proof.
  intros H. apply lookup_In in H. apply (in_map fst) in H. exact H.
Qed.

(** X7.  Every document key that no member accounts for is reported:
    when a map is walked against a struct, a key of the map that is
    not ignored and under which no exported member is entered has its
    path among the entries, whatever else the map and the struct
    hold and in whatever order the map is visited. *)
Theorem unknown_key_is_reported (ro : RangeOrder) (sk : list string) (mm : Map)
        (n p : string) (flds : list (StructField * Value)) (key k : string) (m : Node) :
  lookup k mm = Some m ->
  ~ In (joinPath key k) sk ->
  (forall f spec, In f flds -> Unknown.fieldKey f <> Some (k, spec)) ->
  In (joinPath key k) (Unknown.checkAllTags ro sk (Mapping mm) (VStruct n p flds) key).
Proof.
  intros Hk Hsk Hf. rewrite checkAllTags_mapping, in_flat_map. exists k. split.
  - apply (Permutation_in k (Permutation_sym (order_perm ro (keys mm)))).
    apply (lookup_keys _ _ _ Hk).
  - unfold entriesAt, Unknown.checkKey. rewrite Hk.
    destruct (Unknown.skipped sk key k) eqn:Es.
    + apply unknown_skipped_iff in Es. contradiction.
    + rewrite (unknown_lookup_None k flds Hf). left. reflexivity.
Qed.

(** The documentation's [<e2>more</e2>] against a struct with [E1] only. *)
Lemma unknown_key_is_reported_witness :
  In "e2" (Unknown.checkAllTags reversedOrder []
             (Mapping [("e1", Text "test"); ("e2", Text "more")])
             (VStruct "doc1" "checkxml" [(field "E1" "e1", VString)]) "").
Proof.
  apply (unknown_key_is_reported reversedOrder []
           [("e1", Text "test"); ("e2", Text "more")] "doc1" "checkxml"
           [(field "E1" "e1", VString)] "" "e2" (Text "more")).
  - reflexivity.
  - intros [].
  - intros f spec [<-|[]]. discriminate.
Defined.

(** X8.  Every member the document lacks is reported: when a map is
    walked against a struct, a member that [checkMembers] looks for,
    that is not to be ignored, whose name is no key of the map, and
    that is not tagged [omitempty] (or is, while the [omitempty] tag is
    not honoured), has its path among the entries. *)
Theorem missing_member_is_reported (g : Globals) (mm : Map)
        (n p : string) (flds : list (StructField * Value)) (cmem : string)
        (fs : Missing.fieldSpec) :
  In fs (Missing.buildFields flds) ->
  Missing.skipped (skipmembers g) cmem (Missing.lookupName fs) = false ->
  lookup (Missing.lookupName fs) mm = None ->
  Missing.omitempty fs = false \/ omitemptyOK g = false ->
  In (joinPath cmem (Missing.lookupName fs))
     (Missing.checkMembers g (Mapping mm) (VStruct n p flds) cmem).
Proof.
  intros Hfs Hsk Hl Ho. rewrite checkMembers_eq. unfold Missing.checkMembersBody.
  simpl ValueKind. cbv iota. rewrite in_flat_map. exists fs. split; [exact Hfs|].
  unfold Missing.checkField. rewrite Hsk. unfold Missing.lookForField. rewrite Hl.
  apply in_or_app. left.
  replace (negb false && (negb (Missing.omitempty fs) || negb (omitemptyOK g))) with true.
  - left. reflexivity.
  - destruct Ho as [-> | ->]; simpl; [reflexivity|]. rewrite orb_true_r. reflexivity.
Qed.

(** The documentation's missing [e2]. *)
Lemma missing_member_is_reported_witness :
  In "e2" (Missing.checkMembers initial (Mapping [("e1", Text "test")]) doc1 "").
Proof.
  apply (missing_member_is_reported initial [("e1", Text "test")] "doc1" "checkxml"
           [(field "E1" "e1", VString); (field "E2" "e2", VString)] ""
           {| Missing.name := "E2"; Missing.val := VString;
              Missing.tag := ["e2"]; Missing.omitempty := false |}).
  - right. left. reflexivity.
  - reflexivity.
  - reflexivity.
  - left. reflexivity.
Defined.

Lemma isBasic_inv (v : Value) : isBasic v = true -> exists n p, v = VBasic n p.
Proof. destruct v; try discriminate. intros _. eauto. Qed.

Lemma checkMembers_basic (g : Globals) (mv : Node) (v : Value) (cmem : string) :
  isBasic v = true -> Missing.checkMembers g mv v cmem = [].
Proof.
  intros H. destruct (isBasic_inv v H) as (n & p & ->). rewrite checkMembers_eq. reflexivity.
Qed.

Lemma checkAllTags_basic (ro : RangeOrder) (sk : list string) (mv : Node) (v : Value)
      (key : string) :
  isBasic v = true -> Unknown.checkAllTags ro sk mv v key = [].
Proof.
  intros H. destruct (isBasic_inv v H) as (n & p & ->). destruct mv; reflexivity.
Qed.

(** ** The lists of tags and members to ignore *)

(** X10.  Either list is cleared by a call with no argument, whatever
    it held: setting and then clearing is clearing, and after it no key
    and no member is skipped.  [SetTagsToIgnore] also clears the list
    when its first argument is the empty string, and then drops the
    arguments that follow it.  Neither function touches the other
    list or the two flags. *)
Theorem ignore_lists_are_cleared :
  (forall g l, (SetTagsToIgnore l ;;; SetTagsToIgnore []) g = SetTagsToIgnore [] g) /\
  (forall g l, (SetMembersToIgnore l ;;; SetMembersToIgnore []) g = SetMembersToIgnore [] g) /\
  (forall g rest, SetTagsToIgnore ("" :: rest) g = SetTagsToIgnore [] g) /\
  (forall g, exists g',
      SetTagsToIgnore [] g = Ret tt g' /\
      skipmembers g' = skipmembers g /\ omitemptyOK g' = omitemptyOK g /\
      mxjCast g' = mxjCast g /\
      forall key k, Unknown.skipped (skiptags g') key k = false) /\
  (forall g, exists g',
      SetMembersToIgnore [] g = Ret tt g' /\
      skiptags g' = skiptags g /\ omitemptyOK g' = omitemptyOK g /\
      mxjCast g' = mxjCast g /\
      forall cmem fn, Missing.skipped (skipmembers g') cmem fn = false).
Proof.
  split; [|split; [|split; [|split]]].
  - intros g [|s0 l]; unfold bind, SetTagsToIgnore, get, put; simpl; [reflexivity|].
    destruct (s0 =? "")%string; reflexivity.
  - intros g [|s0 l]; reflexivity.
  - intros g rest. reflexivity.
  - intros g. eexists. split; [reflexivity|]. repeat split.
  - intros g. eexists. split; [reflexivity|]. repeat split.
Qed.

(** ** Panics and the package variables *)

(** X12.  [UnknownXMLTags] never panics.  [MissingXMLTags] panics in
    one case only: the document decodes, the value of its root is
    neither a map nor a list, and [val] is nil, so that there is no
    type to name.  A call that returns leaves the package variables as
    they were. *)
Theorem entry_points_panic_on_nil_val_only (ro : RangeOrder) (NewMapXml : Decoder)
        (b : string) (val : Value) (g : Globals) :
  (exists r, UnknownXMLTags ro NewMapXml b val g = Ret r g) /\
  ((exists msg, MissingXMLTags ro NewMapXml b val g = Panic msg) <->
   snd (NewMapXml b []) = None /\
   isMapOrList (snd (Unknown.firstEntry ro (fst (NewMapXml b [])))) = false /\
   val = Invalid) /\
  (forall r g', MissingXMLTags ro NewMapXml b val g = Ret r g' -> g' = g).
Proof.
  unfold UnknownXMLTags, MissingXMLTags, bind, get.
  destruct (NewMapXml b []) as [m [e|]]; simpl.
  - split; [eexists; reflexivity|]. split.
    + split; [intros (msg & H); discriminate|intros (H & _); discriminate].
    + intros r g' [= _ <-]. reflexivity.
  - split.
    { destruct (Unknown.firstEntry ro m) as [root v]. simpl.
      destruct (isMapOrList v); eexists; reflexivity. }
    destruct (isMapOrList (snd (Unknown.firstEntry ro m))); simpl; unfold ret.
    + split.
      * split; [intros (msg & H); discriminate|intros (_ & H & _); discriminate].
      * intros r g' [= _ <-]. reflexivity.
    + split.
      * split.
        -- intros (msg & H). destruct val; try discriminate. auto.
        -- intros (_ & _ & ->). eexists. reflexivity.
      * destruct val; simpl; unfold panic, ret; intros r g'; try discriminate;
          intros [= _ <-]; reflexivity.
Qed.

(** ** Two members under one key *)

Lemma unknown_fold_other_keys (k : string) (flds : list (StructField * Value)) :
  (forall f spec, In f flds -> Unknown.fieldKey f <> Some (k, spec)) ->
  forall acc,
    lookup k (fold_left (fun fields f =>
                           match Unknown.fieldKey f with
                           | Some e => e :: fields
                           | None => fields
                           end) flds acc) = lookup k acc.
Proof.
  induction flds as [|f flds IH]; intros Hf acc; simpl; [reflexivity|].
  rewrite IH by (intros f' spec Hin; apply Hf; right; exact Hin).
  destruct (Unknown.fieldKey f) as [[k' sp]|] eqn:E; [|reflexivity].
  simpl. destruct (String.eqb_spec k k') as [->|_]; [|reflexivity].
  destruct (Hf f sp (or_introl eq_refl)). exact E.
Qed.

(** ** Structs whose members are all of basic type *)

Lemma flat_map_filter {A B} (f : A -> list B) (h : A -> bool) (g : A -> B) (l : list A) :
  (forall x, In x l -> f x = if h x then [g x] else []) ->
  flat_map f l = map g (filter h l).
Proof.
  induction l as [|a l IH]; intros H; simpl; [reflexivity|].
  rewrite (H a (or_introl eq_refl)), IH by (intros x Hx; apply H; right; exact Hx).
  destruct (h a); reflexivity.
Qed.

Lemma keys_lookup {A} (k : string) (m : list (string * A)) :
  In k (keys m) -> exists v, lookup k m = Some v.
Proof.
  induction m as [|[k' v] m IH]; simpl; [tauto|].
  destruct (String.eqb_spec k k') as [->|Hne]; [eauto|].
  intros [H|H]; [congruence|apply IH, H].
Qed.

Lemma fieldKey_val (f : StructField * Value) (k : string) (spec : Unknown.fieldSpec) :
  Unknown.fieldKey f = Some (k, spec) -> Unknown.val spec = snd f.
Proof.
  destruct f as [sf fv]. unfold Unknown.fieldKey.
  destruct (nonempty (PkgPath sf)); [discriminate|].
  destruct (isXMLName fv); [discriminate|].
  destruct (hasOption "attr" sf);
    destruct (first (if (first (tagPath sf) =? "-")%string then [""] else tagPath sf) =? "")%string;
    intros [= _ <-]; reflexivity.
Qed.

Lemma fold_fields_invariant (P : Unknown.fieldSpec -> Prop)
      (flds : list (StructField * Value)) :
  (forall f k sp, In f flds -> Unknown.fieldKey f = Some (k, sp) -> P sp) ->
  forall acc,
    (forall k sp, lookup k acc = Some sp -> P sp) ->
    forall k sp,
      lookup k (fold_left (fun fields f =>
                             match Unknown.fieldKey f with
                             | Some e => e :: fields
                             | None => fields
                             end) flds acc) = Some sp -> P sp.
Proof.
  induction flds as [|f flds IH]; intros Hf acc Hacc; simpl; [exact Hacc|].
  apply IH; [intros f' k sp Hin; apply Hf; right; exact Hin|].
  destruct (Unknown.fieldKey f) as [[k' sp']|] eqn:E; [|exact Hacc].
  intros k sp. simpl. destruct (String.eqb k k').
  - intros [= <-]. apply (Hf f k' sp' (or_introl eq_refl) E).
  - apply Hacc.
Qed.

Lemma unknown_buildFields_val (flds : list (StructField * Value)) (k : string)
      (spec : Unknown.fieldSpec) :
  lookup k (Unknown.buildFields flds) = Some spec ->
  exists f, In f flds /\ Unknown.val spec = snd f.
Proof.
  apply (fold_fields_invariant (fun sp => exists f, In f flds /\ Unknown.val sp = snd f) flds).
  - intros f k' sp Hin E. exists f. split; [exact Hin|apply (fieldKey_val _ _ _ E)].
  - intros k' sp [=].
Qed.

(** X14.  For a struct whose members are all of basic type, each walk
    of a map is a plain filter.  [checkAllTags] returns the paths of
    the keys of the map, in the order it visits them, that are not
    ignored and under which no member is entered; [checkMembers]
    returns the paths of the members it looks for, in the order they
    are declared, that are not ignored, have no key in the map, and
    may not be absent under the [omitempty] tag. *)
Theorem walks_of_a_flat_struct (n p : string) (flds : list (StructField * Value)) :
  Forall (fun f => isBasic (snd f) = true) flds ->
  (forall ro sk mm key,
      Unknown.checkAllTags ro sk (Mapping mm) (VStruct n p flds) key
      = map (joinPath key)
            (filter (fun k => negb (Unknown.skipped sk key k)
                              && negb (has k (Unknown.buildFields flds)))
                    (order ro (keys mm)))) /\
  (forall g mm cmem,
      Missing.checkMembers g (Mapping mm) (VStruct n p flds) cmem
      = map (fun fs => joinPath cmem (Missing.lookupName fs))
            (filter (fun fs => negb (Missing.skipped (skipmembers g) cmem (Missing.lookupName fs))
                               && negb (has (Missing.lookupName fs) mm)
                               && (negb (Missing.omitempty fs) || negb (omitemptyOK g)))
                    (Missing.buildFields flds))).
Proof.
  intros Hb. rewrite Forall_forall in Hb. split.
  - intros ro sk mm key. rewrite checkAllTags_mapping. apply flat_map_filter.
    intros k Hk.
    apply (Permutation_in k (order_perm ro (keys mm))) in Hk.
    destruct (keys_lookup _ _ Hk) as (m & Hm).
    unfold entriesAt, Unknown.checkKey, has. rewrite Hm.
    destruct (Unknown.skipped sk key k); [reflexivity|].
    destruct (lookup k (Unknown.buildFields flds)) as [spec|] eqn:E; [|reflexivity].
    destruct (unknown_buildFields_val _ _ _ E) as (f & Hf & Hv).
    apply checkAllTags_basic. rewrite Hv. apply Hb, Hf.
  - intros g mm cmem. rewrite checkMembers_eq. unfold Missing.checkMembersBody.
    simpl ValueKind. cbv iota. apply flat_map_filter.
    intros fs Hfs. apply buildFields_In in Hfs. destruct Hfs as (f & Hf & E).
    unfold Missing.checkField, Missing.lookForField, has.
    destruct (Missing.skipped _ _ _); [reflexivity|].
    assert (Hv : isBasic (Missing.val fs) = true)
      by (rewrite (fieldOf_val _ _ E); apply Hb, Hf).
    destruct (lookup (Missing.lookupName fs) mm);
      rewrite (checkMembers_basic g _ _ _ Hv), app_nil_r; [reflexivity|]. simpl.
    destruct (negb (Missing.omitempty fs) || negb (omitemptyOK g)); reflexivity.
Qed.

(** The struct of TestMissingXMLTags: [Ok bool] and [Why string]. *)
Lemma walks_of_a_flat_struct_witness :
  Missing.checkMembers initial (Mapping [("ok", Text "true")])
    (VStruct "test" "checkxml" [(field "Ok" "ok", VBool); (field "Why" "why", VString)]) ""
  = map (fun fs => joinPath "" (Missing.lookupName fs))
        (filter (fun fs => negb (Missing.skipped (skipmembers initial) "" (Missing.lookupName fs))
                           && negb (has (Missing.lookupName fs) [("ok", Text "true")])
                           && (negb (Missing.omitempty fs) || negb (omitemptyOK initial)))
                (Missing.buildFields [(field "Ok" "ok", VBool); (field "Why" "why", VString)])).
Proof.
  apply (walks_of_a_flat_struct "test" "checkxml"
           [(field "Ok" "ok", VBool); (field "Why" "why", VString)]).
  repeat constructor.
Defined.

(** ** The casting flag and the entry points that return the map *)

Lemma isMapOrList_shape (v v' : Node) :
  shape v = shape v' -> isMapOrList v = isMapOrList v'.
Proof. destruct v, v'; simpl; intros H; try reflexivity; discriminate. Qed.

Lemma assertMap_shape (v v' : Node) :
  shape v = shape v' -> shape (assertMap v) = shape (assertMap v').
Proof. destruct v, v'; simpl; intros H; try reflexivity; try discriminate; exact H. Qed.

Lemma firstEntry_shape (ro : RangeOrder) (m m' : Map) :
  shape (Mapping m) = shape (Mapping m') ->
  fst (Unknown.firstEntry ro m) = fst (Unknown.firstEntry ro m') /\
  shape (snd (Unknown.firstEntry ro m)) = shape (snd (Unknown.firstEntry ro m')).
Proof.
  simpl. intros [= H].
  assert (Hk : keys m = keys m') by (rewrite <- (keys_shape m), <- (keys_shape m'), H; reflexivity).
  unfold Unknown.firstEntry. rewrite Hk.
  destruct (order ro (keys m')) as [|k ks]; [split; reflexivity|]. simpl. split; [reflexivity|].
  pose proof (lookup_shape k m) as H1. pose proof (lookup_shape k m') as H2.
  rewrite H in H1. rewrite H1 in H2.
  destruct (lookup k m), (lookup k m'); simpl in H2; try discriminate; [|reflexivity].
  injection H2 as H2. exact H2.
Qed.

(** X15.  The casting flag changes the map that is returned and
    nothing of what is reported.  When decoding with the flag gives a
    document of the same shape as decoding without it,
    [UnknownXMLTagsMap] returns the entries, the root and the error of
    [UnknownXMLTags], with the map, and [MissingXMLTagsMap] returns the
    entries and the error of [MissingXMLTags]. *)
Theorem casting_does_not_change_the_entries (ro : RangeOrder) (NewMapXml : Decoder)
        (g : Globals) (b : string) (val : Value) (m m' : Map) :
  NewMapXml b [] = (m, None) ->
  NewMapXml b [mxjCast g] = (m', None) ->
  shape (Mapping m) = shape (Mapping m') ->
  (exists s root err,
      UnknownXMLTags ro NewMapXml b val g = Ret (s, root, err) g /\
      UnknownXMLTagsMap ro NewMapXml b val g = Ret (s, root, m', err) g) /\
  (forall s root err g',
      MissingXMLTags ro NewMapXml b val g = Ret (s, root, err) g' ->
      exists root', MissingXMLTagsMap ro NewMapXml b val g = Ret (s, m', root', err) g').
Proof.
  intros H0 H1 Hs.
  destruct (firstEntry_shape ro m m' Hs) as [Hroot Hv].
  unfold UnknownXMLTags, UnknownXMLTagsMap, MissingXMLTags, MissingXMLTagsMap, bind, get.
  rewrite H0, H1.
  destruct (Unknown.firstEntry ro m) as [root v].
  destruct (Unknown.firstEntry ro m') as [root' v']. simpl in *. subst root'.
  rewrite (isMapOrList_shape v v' Hv).
  destruct (isMapOrList v'); simpl; unfold ret.
  - split.
    + do 3 eexists. split; [reflexivity|].
      rewrite <- (checkAllTags_shape ro (skiptags g) v), Hv, checkAllTags_shape. reflexivity.
    + intros s r err g' [= <- <- <- <-]. eexists.
      rewrite <- (checkMembers_shape g (S (Missing.vdepth val)) val (Nat.lt_succ_diag_r _)
                    (assertMap v)).
      rewrite (assertMap_shape v v' Hv).
      rewrite (checkMembers_shape g (S (Missing.vdepth val)) val (Nat.lt_succ_diag_r _)).
      reflexivity.
  - split.
    + do 3 eexists. split; reflexivity.
    + intros s r err g'. destruct val; simpl; unfold panic, ret; try discriminate;
        intros [= <- <- <- <-]; eexists; reflexivity.
Qed.

(** [<doc><ok>true</ok></doc>]: ["true"] without the flag, [true] with it. *)
Lemma casting_does_not_change_the_entries_witness :
  exists s root err,
    UnknownXMLTags listedOrder
      (fun _ cast => match cast with
                     | true :: _ => ([("doc", Mapping [("ok", Boolean true)])], None)
                     | _ => ([("doc", Mapping [("ok", Text "true")])], None)
                     end)
      "<doc><ok>true</ok></doc>" emptyStruct (set_mxjCast true initial)
    = Ret (s, root, err) (set_mxjCast true initial) /\
    UnknownXMLTagsMap listedOrder
      (fun _ cast => match cast with
                     | true :: _ => ([("doc", Mapping [("ok", Boolean true)])], None)
                     | _ => ([("doc", Mapping [("ok", Text "true")])], None)
                     end)
      "<doc><ok>true</ok></doc>" emptyStruct (set_mxjCast true initial)
    = Ret (s, root, [("doc", Mapping [("ok", Boolean true)])], err) (set_mxjCast true initial).
Proof.
  apply (casting_does_not_change_the_entries listedOrder _ (set_mxjCast true initial)
           "<doc><ok>true</ok></doc>" emptyStruct
           [("doc", Mapping [("ok", Text "true")])]
           [("doc", Mapping [("ok", Boolean true)])]); reflexivity.
Defined.

(** ** A single value where a list is declared *)

(** X16.  [checkMembers] takes a value that is not a list, met by a
    member of slice type, as the list of that one value: the entries
    are those of the one-element list. *)
Theorem checkMembers_single_value_as_list (g : Globals) (mv : Node) (elem : Type_)
        (cmem : string) :
  (forall l, mv <> Sequence l) ->
  Missing.checkMembers g mv (VSlice elem) cmem
  = Missing.checkMembers g (Sequence [mv]) (VSlice elem) cmem.
Proof.
  intros H. rewrite (checkMembers_eq g mv), (checkMembers_eq g (Sequence [mv])).
  unfold Missing.checkMembersBody. simpl ValueKind. cbv iota.
  destruct mv; try reflexivity. destruct (H l). reflexivity.
Qed.

(** One [<item>] element where [Items []item] is declared. *)
Lemma checkMembers_single_value_as_list_witness :
  Missing.checkMembers initial (Mapping [("e1", Text "test")]) (VSlice (TypeOf doc1)) "items"
  = Missing.checkMembers initial (Sequence [Mapping [("e1", Text "test")]])
      (VSlice (TypeOf doc1)) "items".
Proof.
  apply (checkMembers_single_value_as_list initial (Mapping [("e1", Text "test")])
           (TypeOf doc1) "items").
  discriminate.
Defined.

(** ** Each walk reads its own package variables *)

Lemma checkMembersN_globals (g g' : Globals) :
  skipmembers g = skipmembers g' ->
  omitemptyOK g = omitemptyOK g' ->
  forall n mv v cmem,
    Missing.checkMembersN g n mv v cmem = Missing.checkMembersN g' n mv v cmem.
Proof.
  intros Hs Ho. induction n as [|n IH]; intros mv v cmem; [reflexivity|].
  simpl. unfold Missing.checkMembersBody.
  assert (Hstep : forall u,
     match u with
     | VSlice elem =>
         flat_map (fun sl => Missing.checkMembersN g n sl (New (sliceElem elem)) cmem)
           match mv with Sequence slice => slice | _ => [mv] end
     | VStruct tname _ flds =>
         match mv with
         | Mapping mm =>
             flat_map (Missing.checkField g (Missing.checkMembersN g n) mm cmem)
                      (Missing.buildFields flds)
         | _ => [Missing.mismatchEntry cmem tname]
         end
     | _ => []
     end =
     match u with
     | VSlice elem =>
         flat_map (fun sl => Missing.checkMembersN g' n sl (New (sliceElem elem)) cmem)
           match mv with Sequence slice => slice | _ => [mv] end
     | VStruct tname _ flds =>
         match mv with
         | Mapping mm =>
             flat_map (Missing.checkField g' (Missing.checkMembersN g' n) mm cmem)
                      (Missing.buildFields flds)
         | _ => [Missing.mismatchEntry cmem tname]
         end
     | _ => []
     end).
  { intros u. destruct u as [| | | |e|tn tp flds]; try reflexivity.
    - apply flat_map_ext_in. intros sl _. apply IH.
    - destruct mv; try reflexivity. apply flat_map_ext_in. intros fs _.
      unfold Missing.checkField, Missing.lookForField. rewrite Hs, Ho.
      destruct (Missing.skipped _ _ _); [reflexivity|].
      destruct (lookup _ mm); rewrite IH; reflexivity. }
  destruct v as [| | |v'|e|tn tp flds]; try reflexivity.
  - apply (Hstep v').
  - apply (Hstep (VSlice e)).
  - apply (Hstep (VStruct tn tp flds)).
Qed.

(** X18.  Each walk reads its own package variables.  What
    [MissingXMLTags] returns does not depend on the tags to ignore:
    after any [SetTagsToIgnore] it returns what it returned before.
    What [UnknownXMLTags] returns depends neither on the members to
    ignore nor on the handling of [omitempty]. *)
Theorem each_walk_reads_its_own_variables (ro : RangeOrder) (NewMapXml : Decoder)
        (g : Globals) (b : string) (val : Value) :
  (forall tags r g1,
      MissingXMLTags ro NewMapXml b val g = Ret r g1 ->
      exists g2, (SetTagsToIgnore tags ;;; MissingXMLTags ro NewMapXml b val) g = Ret r g2) /\
  (forall members ok r g1,
      UnknownXMLTags ro NewMapXml b val g = Ret r g1 ->
      exists g2,
        (SetMembersToIgnore members ;;; IgnoreOmitemptyTag ok ;;;
         UnknownXMLTags ro NewMapXml b val) g = Ret r g2).
Proof.
  split.
  - intros tags r g1.
    assert (H : forall g0, skipmembers g0 = skipmembers g -> omitemptyOK g0 = omitemptyOK g ->
                 MissingXMLTags ro NewMapXml b val g = Ret r g1 ->
                 exists g2, MissingXMLTags ro NewMapXml b val g0 = Ret r g2).
    { intros g0 Hs Ho. unfold MissingXMLTags, bind, get.
      destruct (NewMapXml b []) as [m [e|]]; simpl.
      - intros [= <- _]. eexists. reflexivity.
      - destruct (isMapOrList (snd (Unknown.firstEntry ro m))); simpl; unfold ret.
        + intros [= <- _]. eexists. unfold Missing.checkMembers.
          rewrite (checkMembersN_globals g0 g Hs Ho). reflexivity.
        + destruct val; simpl; unfold panic, ret; try discriminate;
            intros [= <- _]; eexists; reflexivity. }
    intros Hr. unfold bind at 1. unfold SetTagsToIgnore, bind, get, put.
    destruct tags as [|t tags]; [|destruct (t =? "")%string]; apply H; auto.
  - intros members ok r g1.
    assert (H : forall g0, skiptags g0 = skiptags g ->
                 UnknownXMLTags ro NewMapXml b val g = Ret r g1 ->
                 exists g2, UnknownXMLTags ro NewMapXml b val g0 = Ret r g2).
    { intros g0 Hs. unfold UnknownXMLTags, bind, get.
      destruct (NewMapXml b []) as [m [e|]]; simpl.
      - intros [= <- _]. eexists. reflexivity.
      - destruct (Unknown.firstEntry ro m) as [root v].
        destruct (isMapOrList v); simpl; unfold ret.
        + intros [= <- _]. eexists. rewrite Hs. reflexivity.
        + intros [= <- _]. eexists. reflexivity. }
    intros Hr. unfold bind at 1 2. unfold SetMembersToIgnore, IgnoreOmitemptyTag, bind, get, put.
    destruct (Nat.eqb (length members) 0); destruct ok as [|o ok]; apply H; auto.
Qed.

(** * The claims that speak of the walks at large *)

(** ** A node that is not a map where a struct is expected *)

Lemma checkAllTags_converted_struct (ro : RangeOrder) (sk : list string) (mv : Node)
      (val : Value) (key : string) (n p : string) (flds : list (StructField * Value)) :
  converted val = VStruct n p flds ->
  Unknown.checkAllTags ro sk mv val key = Unknown.checkAllTags ro sk mv (VStruct n p flds) key.
Proof.
  unfold converted. destruct val as [| | |v| |]; simpl; try discriminate.
  - intros ->. apply checkAllTags_ptr. discriminate.
  - intros [= -> -> ->]. reflexivity.
Qed.

Lemma checkAllTags_converted_slice (ro : RangeOrder) (sk : list string) (mv : Node)
      (val : Value) (key : string) (elem : Type_) :
  converted val = VSlice elem ->
  Unknown.checkAllTags ro sk mv val key = Unknown.checkAllTags ro sk mv (VSlice elem) key.
Proof.
  unfold converted. destruct val as [| | |v| |]; simpl; try discriminate.
  - intros ->. apply checkAllTags_ptr. discriminate.
  - intros [= ->]. reflexivity.
Qed.

Lemma joinPath_nonempty (key k : string) : key <> "" -> joinPath key k <> "".
Proof.
  intros H. unfold joinPath. destruct (String.eqb_spec key "") as [E|_]; [contradiction|].
  apply append_nonempty, append_nonempty, H.
Qed.

(** What a call appends holds what the calls it makes append. *)
Lemma calls_incl (ro : RangeOrder) (sk : list string) (c c' : call) :
  calls sk c c' ->
  incl (Unknown.checkAllTags ro sk (fst (fst c')) (snd (fst c')) (snd c'))
       (Unknown.checkAllTags ro sk (fst (fst c)) (snd (fst c)) (snd c)).
Proof.
  intros H e He. destruct H as [val key elem l sl Hv Hsl|val key n p flds mm k m spec Hv Hk Hs Hf];
    cbn [fst snd] in *.
  - rewrite (checkAllTags_converted_slice _ _ _ _ _ _ Hv). simpl.
    apply in_flat_map. exists sl. split; [exact Hsl|exact He].
  - rewrite (checkAllTags_converted_struct _ _ _ _ _ _ _ _ Hv), checkAllTags_mapping.
    apply in_flat_map. exists k. split.
    + apply (Permutation_in k (Permutation_sym (order_perm ro (keys mm)))).
      apply (lookup_keys _ _ _ Hk).
    + unfold entriesAt, Unknown.checkKey. rewrite Hk, Hs, Hf. exact He.
Qed.

Lemma reached_incl (ro : RangeOrder) (sk : list string) (c0 c : call) :
  reached sk c0 c ->
  incl (Unknown.checkAllTags ro sk (fst (fst c)) (snd (fst c)) (snd c))
       (Unknown.checkAllTags ro sk (fst (fst c0)) (snd (fst c0)) (snd c0)).
Proof.
  induction 1 as [|c c' Hr IH Hc]; [apply incl_refl|].
  eapply incl_tran; [apply (calls_incl ro sk _ _ Hc)|exact IH].
Qed.

(** In a walk that starts on a map whose keys are not empty, every
    call but the first has a path that is not empty. *)
Lemma reached_path (sk : list string) (mm : Map) (val : Value) (c : call) :
  Forall (fun e => fst e <> "") mm ->
  reached sk (Mapping mm, val, "") c ->
  c = (Mapping mm, val, "") \/ snd c <> "".
Proof.
  intros Hkeys. induction 1 as [|c c' Hr IH Hc]; [left; reflexivity|]. right.
  destruct Hc as [v key elem l sl Hv Hsl|v key n p flds mm' k m spec Hv Hk Hs Hf]; simpl.
  - destruct IH as [[=]|IH]. exact IH.
  - destruct IH as [[= -> -> ->]|IH].
    + unfold joinPath. simpl. apply lookup_In in Hk.
      rewrite Forall_forall in Hkeys. apply (Hkeys _ Hk).
    + apply joinPath_nonempty, IH.
Qed.

(** C8.  When the value is a struct and the node is not a map,
    [checkAllTags] records the current path and nothing else for that
    node.  In a walk that [UnknownXMLTags] starts on a document, whose
    root value is a map and whose keys are not empty, such a node is
    never at the empty path: its path is recorded, it is among the
    entries returned, and the root name never has to stand for it. *)
Theorem struct_met_by_non_map_records_its_path :
  (forall ro sk mv val key,
      expectsStruct val = true ->
      isMapping mv = false ->
      Unknown.checkAllTags ro sk mv val key = [key]) /\
  (forall ro NewMapXml b val g m root mm s r err g' mv' val' key',
      NewMapXml b [] = (m, None) ->
      Unknown.firstEntry ro m = (root, Mapping mm) ->
      Forall (fun e => fst e <> "") mm ->
      UnknownXMLTags ro NewMapXml b val g = Ret (s, r, err) g' ->
      reached (skiptags g) (Mapping mm, val, "") (mv', val', key') ->
      expectsStruct val' = true ->
      isMapping mv' = false ->
      key' <> "" /\
      Unknown.checkAllTags ro (skiptags g) mv' val' key'
      = [if (key' =? "")%string then root else key'] /\
      In key' s).
Proof.
  assert (Hone : forall ro sk mv val key,
             expectsStruct val = true -> isMapping mv = false ->
             Unknown.checkAllTags ro sk mv val key = [key]).
  { unfold expectsStruct. intros ro sk mv val key Hs Hm.
    destruct val as [| | |v| |n p flds]; simpl in Hs; try discriminate.
    - destruct v; try discriminate. destruct mv; try discriminate; reflexivity.
    - destruct mv; try discriminate; reflexivity. }
  split; [exact Hone|].
  intros ro NewMapXml b val g m root mm s r err g' mv' val' key' Hdec Hroot Hkeys Hret Hr Hs Hm.
  assert (Hkey : key' <> "").
  { destruct (reached_path _ _ _ _ Hkeys Hr) as [[= -> -> ->]|H]; [discriminate|exact H]. }
  split; [exact Hkey|]. split.
  - destruct (String.eqb_spec key' "") as [E|_]; [contradiction|]. apply Hone; assumption.
  - unfold UnknownXMLTags, bind, get in Hret. rewrite Hdec, Hroot in Hret. simpl in Hret.
    unfold ret in Hret. injection Hret as <- _ _ _.
    apply (reached_incl ro (skiptags g) _ _ Hr). simpl.
    rewrite (Hone _ _ _ _ _ Hs Hm). left. reflexivity.
Qed.

(** [<doc><Ok>true</Ok><Why>x</Why></doc>] against [Why sub]: the
    struct [sub] is met by the string ["x"], at the path [Why]. *)
Example struct_met_by_non_map_in_a_walk :
  reached [] (Mapping [("Ok", Text "true"); ("Why", Text "x")], testWhy, "")
          (Text "x", subStruct, "Why") /\
  UnknownXMLTags listedOrder (decoderOf mapWhy) "<doc><Ok>true</Ok><Why>x</Why></doc>"
                 testWhy initial
  = Ret (["Why"], "doc", None) initial.
Proof.
  split; [|reflexivity].
  eapply reached_next; [apply reached_first|].
  apply (calls_key [] testWhy "" "test" "checkxml"
           [(field "Ok" "", VBool); (field "Why" "", subStruct)]
           [("Ok", Text "true"); ("Why", Text "x")] "Why" (Text "x")
           {| Unknown.val := subStruct; Unknown.tag := [""] |}); reflexivity.
Qed.

(** ** The errors of the entry points, whatever the casting flag *)

(** C7, as the code has it.  When the value of the root is neither a
    map nor a list, the unknown-seeking entry points return the error
    "no elements" with the root name and no entry; the missing-seeking
    entry points return no error, and the name of the type of [val] as
    their one entry, unless [val] is nil, when they panic.  The entry
    points that return the map decode with the casting flag, and are
    taken at the map that call gives.  An error returned by an
    unknown-seeking entry point is the decoder's or "no elements"; an
    error returned by a missing-seeking one is the decoder's. *)
Theorem root_neither_map_nor_list (ro : RangeOrder) (NewMapXml : Decoder)
        (g : Globals) (b : string) (val : Value) (m : Map) :
  NewMapXml b [] = (m, None) ->
  isMapOrList (snd (Unknown.firstEntry ro m)) = false ->
  let root := fst (Unknown.firstEntry ro m) in
  UnknownXMLTags ro NewMapXml b val g = Ret ([], root, Some "no elements") g /\
  (val <> Invalid ->
   exists r, MissingXMLTags ro NewMapXml b val g = Ret ([TypeName (TypeOf val)], r, None) g) /\
  (val = Invalid -> exists msg, MissingXMLTags ro NewMapXml b val g = Panic msg) /\
  (forall m',
      NewMapXml b [mxjCast g] = (m', None) ->
      isMapOrList (snd (Unknown.firstEntry ro m')) = false ->
      UnknownXMLTagsMap ro NewMapXml b val g
      = Ret ([], fst (Unknown.firstEntry ro m'), m', Some "no elements") g /\
      (val <> Invalid ->
       MissingXMLTagsMap ro NewMapXml b val g
       = Ret ([TypeName (TypeOf val)], m', fst (Unknown.firstEntry ro m'), None) g) /\
      (val = Invalid -> exists msg, MissingXMLTagsMap ro NewMapXml b val g = Panic msg)) /\
  (forall b' val' g' s r e g'',
      UnknownXMLTags ro NewMapXml b' val' g' = Ret (s, r, Some e) g'' ->
      snd (NewMapXml b' []) = Some e \/
      (e = "no elements" /\ snd (NewMapXml b' []) = None)) /\
  (forall b' val' g' s r e g'',
      MissingXMLTags ro NewMapXml b' val' g' = Ret (s, r, Some e) g'' ->
      snd (NewMapXml b' []) = Some e).
Proof.
  intros Hdec Hroot root.
  split; [|split; [|split; [|split; [|split]]]].
  - unfold UnknownXMLTags, bind, get. rewrite Hdec. subst root.
    destruct (Unknown.firstEntry ro m) as [r v]. simpl in *. rewrite Hroot. reflexivity.
  - intros Hval. unfold MissingXMLTags, bind, get. rewrite Hdec, Hroot. simpl.
    destruct val; try (destruct (Hval eq_refl)); eexists; reflexivity.
  - intros ->. unfold MissingXMLTags, bind, get. rewrite Hdec, Hroot. simpl.
    eexists. reflexivity.
  - intros m' Hdec' Hroot'.
    unfold UnknownXMLTagsMap, MissingXMLTagsMap, bind, get. rewrite Hdec'.
    destruct (Unknown.firstEntry ro m') as [r v]. simpl in *. rewrite Hroot'. simpl.
    split; [reflexivity|]. split.
    + intros Hval. destruct val; try (destruct (Hval eq_refl)); reflexivity.
    + intros ->. eexists. reflexivity.
  - intros b' val' g' s r e g''. unfold UnknownXMLTags, bind, get.
    destruct (NewMapXml b' []) as [m' [e'|]]; simpl.
    + intros [= <- <- <- <-]. left. reflexivity.
    + destruct (Unknown.firstEntry ro m') as [root' v'].
      destruct (isMapOrList v'); simpl; unfold ret.
      * intros [= ].
      * intros [= <- <- <- <-]. right. split; reflexivity.
  - intros b' val' g' s r e g''. unfold MissingXMLTags, bind, get.
    destruct (NewMapXml b' []) as [m' [e'|]]; simpl.
    + intros [= <- <- <- <-]. reflexivity.
    + destruct (isMapOrList (snd (Unknown.firstEntry ro m'))); simpl; unfold ret.
      * intros [= ].
      * destruct val'; simpl; unfold panic, ret; intros [= ].
Qed.

(** [<doc>true</doc>] with a decoder that honours the casting flag. *)
Lemma root_neither_map_nor_list_witness :
  UnknownXMLTags listedOrder (castingDecoder mapTrue mapTrueCast) dataTrue doc1
                 (set_mxjCast true initial)
    = Ret ([], "doc", Some "no elements") (set_mxjCast true initial) /\
  (exists r, MissingXMLTags listedOrder (castingDecoder mapTrue mapTrueCast) dataTrue doc1
                            (set_mxjCast true initial)
    = Ret (["doc1"], r, None) (set_mxjCast true initial)) /\
  MissingXMLTagsMap listedOrder (castingDecoder mapTrue mapTrueCast) dataTrue doc1
                    (set_mxjCast true initial)
    = Ret (["doc1"], mapTrueCast, "doc", None) (set_mxjCast true initial).
Proof.
  pose proof (root_neither_map_nor_list listedOrder (castingDecoder mapTrue mapTrueCast)
                (set_mxjCast true initial) dataTrue doc1 mapTrue eq_refl eq_refl) as H.
  cbv zeta in H. destruct H as (HU & HM & _ & HC & _).
  split; [exact HU|]. split; [apply HM; discriminate|].
  destruct (HC mapTrueCast eq_refl eq_refl) as (_ & HMM & _). apply HMM. discriminate.
Defined.

(** ** The members to ignore, in the walk *)

Lemma ignoredAt_skipped (l : list string) (g : Globals) (cmem : string)
      (fs : Missing.fieldSpec) :
  Missing.skipped
    (map (fun v => {| sm_val := v; sm_depth := length (strings.Split v dot) |}) l)
    cmem (Missing.lookupName fs)
  = ignoredAt l cmem fs.
Proof.
  unfold ignoredAt.
  set (path := joinPath cmem (Missing.lookupName fs)).
  destruct (Missing.skipped _ cmem (Missing.lookupName fs)) eqn:E.
  - apply skipped_iff in E. destruct E as (sm & Hin & Hv & Hd).
    apply in_map_iff in Hin. destruct Hin as (x & <- & Hx). simpl in Hv, Hd. subst x.
    symmetry. apply andb_true_iff. split.
    + apply existsb_exists. exists path. split; [exact Hx|apply String.eqb_refl].
    + apply Nat.eqb_eq. exact Hd.
  - symmetry. apply not_true_iff_false. intros H. apply andb_true_iff in H.
    destruct H as [H1 H2]. apply existsb_exists in H1. destruct H1 as (x & Hx & Heq).
    apply String.eqb_eq in Heq. subst x. apply Nat.eqb_eq in H2.
    assert (Missing.skipped
              (map (fun v => {| sm_val := v; sm_depth := length (strings.Split v dot) |}) l)
              cmem (Missing.lookupName fs) = true).
    { apply skipped_iff. eexists. split; [apply in_map_iff; eexists; split; [reflexivity|exact Hx]|].
      simpl. split; [reflexivity|exact H2]. }
    congruence.
Qed.

Lemma flat_map_skip {A B} (f : A -> list B) (h : A -> bool) (l : list A) :
  flat_map (fun x => if h x then [] else f x) l = flat_map f (filter (fun x => negb (h x)) l).
Proof.
  induction l as [|a l IH]; simpl; [reflexivity|].
  rewrite IH. destruct (h a); reflexivity.
Qed.

(** C6.  After [SetMembersToIgnore(v, rest...)], [checkMembers] passes
    over a member exactly when its full path is one of the entries and
    the depth recorded for that entry, its number of dot-segments, is
    the depth of the level walked: the number of dot-segments of the
    parent path plus one.  The walk of a map against a struct is the
    walk of the members that are not excluded so, each looked for as
    usual; a member that the document lacks is therefore reported also
    when an entry has the text of its path but another depth. *)
Theorem members_to_ignore_path_and_depth (g : Globals) (v : string) (rest : list string) :
  exists g',
    SetMembersToIgnore (v :: rest) g = Ret tt g' /\
    (forall cmem fs,
        let path := joinPath cmem (Missing.lookupName fs) in
        (Missing.skipped (skipmembers g') cmem (Missing.lookupName fs) = true <->
         In path (v :: rest) /\ length (strings.Split path dot) = segments cmem + 1) /\
        Missing.skipped (skipmembers g') cmem (Missing.lookupName fs)
        = ignoredAt (v :: rest) cmem fs) /\
    (forall walk mkeys cmem fs,
        Missing.checkField g' walk mkeys cmem fs
        = if ignoredAt (v :: rest) cmem fs then []
          else Missing.lookForField g' walk mkeys cmem fs) /\
    (forall mm n p flds cmem,
        Missing.checkMembers g' (Mapping mm) (VStruct n p flds) cmem
        = flat_map (Missing.lookForField g' (Missing.checkMembers g') mm cmem)
                   (filter (fun fs => negb (ignoredAt (v :: rest) cmem fs))
                           (Missing.buildFields flds))) /\
    (forall mm n p flds cmem fs,
        In fs (Missing.buildFields flds) ->
        ignoredAt (v :: rest) cmem fs = false ->
        lookup (Missing.lookupName fs) mm = None ->
        Missing.omitempty fs = false \/ omitemptyOK g = false ->
        In (joinPath cmem (Missing.lookupName fs))
           (Missing.checkMembers g' (Mapping mm) (VStruct n p flds) cmem)) /\
    (forall ro NewMapXml b m root mm n p flds,
        NewMapXml b [] = (m, None) ->
        Unknown.firstEntry ro m = (root, Mapping mm) ->
        exists r,
          (SetMembersToIgnore (v :: rest) ;;;
           MissingXMLTags ro NewMapXml b (VStruct n p flds)) g
          = Ret (flat_map (Missing.lookForField g' (Missing.checkMembers g') mm "")
                          (filter (fun fs => negb (ignoredAt (v :: rest) "" fs))
                                  (Missing.buildFields flds)), r, None) g').
Proof.
  exists (set_skipmembers
            (map (fun v0 => {| sm_val := v0; sm_depth := length (strings.Split v0 dot) |})
                 (v :: rest)) g).
  set (g' := set_skipmembers _ g).
  assert (Hsk : forall cmem fs,
             Missing.skipped (skipmembers g') cmem (Missing.lookupName fs)
             = ignoredAt (v :: rest) cmem fs)
    by (intros cmem fs; apply (ignoredAt_skipped (v :: rest) g)).
  assert (Hwalk : forall mm n p flds cmem,
             Missing.checkMembers g' (Mapping mm) (VStruct n p flds) cmem
             = flat_map (Missing.lookForField g' (Missing.checkMembers g') mm cmem)
                        (filter (fun fs => negb (ignoredAt (v :: rest) cmem fs))
                                (Missing.buildFields flds))).
  { intros mm n p flds cmem. rewrite checkMembers_eq at 1. unfold Missing.checkMembersBody.
    simpl ValueKind. cbv iota. rewrite <- flat_map_skip.
    apply flat_map_ext_in. intros fs _. unfold Missing.checkField. rewrite Hsk. reflexivity. }
  split; [reflexivity|]. split; [|split; [|split; [exact Hwalk|split]]].
  - intros cmem fs path. split; [|apply Hsk].
    rewrite skipped_iff. subst path. cbn [skipmembers set_skipmembers g']. split.
    + intros (sm & Hin & Hv & Hd). apply in_map_iff in Hin.
      destruct Hin as (x & <- & Hx). simpl in Hv, Hd. subst x. auto.
    + intros [Hin Hd]. eexists.
      split; [apply in_map_iff; eexists; split; [reflexivity|exact Hin]|]. simpl. auto.
  - intros walk mkeys cmem fs. unfold Missing.checkField. rewrite Hsk. reflexivity.
  - intros mm n p flds cmem fs Hfs Hig Hl Ho. rewrite Hwalk. apply in_flat_map.
    exists fs. split.
    + apply filter_In. split; [exact Hfs|]. rewrite Hig. reflexivity.
    + unfold Missing.lookForField. rewrite Hl. apply in_or_app. left.
      replace (negb false && (negb (Missing.omitempty fs) || negb (omitemptyOK g'))) with true;
        [left; reflexivity|].
      destruct Ho as [-> | Ho]; [reflexivity|].
      assert (E : omitemptyOK g' = false) by exact Ho. rewrite E, orb_true_r. reflexivity.
  - intros ro NewMapXml b m root mm n p flds Hdec Hroot. eexists.
    unfold bind at 1. unfold SetMembersToIgnore, bind, get, put. simpl Nat.eqb. cbv iota.
    fold g'. unfold MissingXMLTags, bind, get. rewrite Hdec, Hroot. simpl.
    unfold ret. rewrite Hwalk. reflexivity.
Qed.

(** TestMissingXMLTagsSkipMems, and a member tagged ["a.b"] that the
    entry ["a.b"], of depth 2, does not exclude at the top level. *)
Example members_to_ignore_in_the_walk :
  (exists g',
      SetMembersToIgnore ["why"; "more.Not"] initial = Ret tt g' /\
      Missing.checkMembers g' (Mapping [("ok", Text "true"); ("more", Mapping [])])
        (VStruct "test" "checkxml"
           [(field "Ok" "ok", VBool); (field "Why" "why", VString);
            (field "More" "more", test2)]) ""
      = ["more.Why"]) /\
  (exists g',
      SetMembersToIgnore ["a.b"] initial = Ret tt g' /\
      Missing.checkMembers g' (Mapping [])
        (VStruct "t" "checkxml" [(field "AB" "a.b", VString)]) "" = ["a.b"]).
Proof. split; eexists; split; reflexivity. Qed.

(** ** A key that the walk says nothing of *)

Lemma lookup_removeKey (k k' : string) (mm : Map) :
  k' <> k -> lookup k' (removeKey k mm) = lookup k' mm.
Proof.
  intros Hne. induction mm as [|[k0 m] mm IH]; simpl; [reflexivity|].
  destruct (String.eqb_spec k0 k) as [->|Hk0]; simpl.
  - destruct (String.eqb_spec k' k) as [E|_]; [contradiction|exact IH].
  - destruct (String.eqb k' k0); [reflexivity|exact IH].
Qed.

Lemma keys_removeKey (k k' : string) (mm : Map) :
  In k' (keys (removeKey k mm)) <-> In k' (keys mm) /\ k' <> k.
Proof.
  unfold keys, removeKey. rewrite !in_map_iff. split.
  - intros ([k0 m] & <- & Hin). apply filter_In in Hin. destruct Hin as [Hin Hb]. simpl in *.
    split; [exists (k0, m); auto|].
    destruct (String.eqb_spec k0 k); [discriminate|assumption].
  - intros [([k0 m] & <- & Hin) Hne]. exists (k0, m). split; [reflexivity|].
    apply filter_In. split; [exact Hin|]. simpl in *.
    destruct (String.eqb_spec k0 k); [contradiction|reflexivity].
Qed.

(** When the loop appends nothing for the key [k], the entries are
    those of the walk of the map without [k]. *)
Lemma checkAllTags_silent_key (ro : RangeOrder) (sk : list string) (mm : Map)
      (n p : string) (flds : list (StructField * Value)) (key k : string) :
  entriesAt ro sk (Unknown.buildFields flds) key mm k = [] ->
  forall e,
    In e (Unknown.checkAllTags ro sk (Mapping mm) (VStruct n p flds) key) <->
    In e (Unknown.checkAllTags ro sk (Mapping (removeKey k mm)) (VStruct n p flds) key).
Proof.
  intros Hk e. rewrite !checkAllTags_mapping, !in_flat_map.
  assert (Hent : forall k', k' <> k ->
             entriesAt ro sk (Unknown.buildFields flds) key (removeKey k mm) k'
             = entriesAt ro sk (Unknown.buildFields flds) key mm k').
  { intros k' Hne. unfold entriesAt. rewrite (lookup_removeKey _ _ _ Hne). reflexivity. }
  split; intros (k' & Hin & He).
  - destruct (string_dec k' k) as [->|Hne]; [rewrite Hk in He; destruct He|].
    exists k'. split; [|rewrite (Hent _ Hne); exact He].
    apply (Permutation_in k' (Permutation_sym (order_perm ro _))).
    apply keys_removeKey. split; [|exact Hne].
    apply (Permutation_in k' (order_perm ro _)), Hin.
  - apply (Permutation_in k' (order_perm ro _)) in Hin.
    apply keys_removeKey in Hin. destruct Hin as [Hin Hne].
    exists k'. split; [|rewrite <- (Hent _ Hne); exact He].
    apply (Permutation_in k' (Permutation_sym (order_perm ro _))), Hin.
Qed.

(** ** Members tagged ["-"], in the walks *)

(** C5.  A member tagged ["-"] is skipped by [checkMembers]: the walk
    is the walk of the struct without it, and it is never reported
    missing.  [checkAllTags] enters it under its declared name; when
    it is of basic type, as in TestUnknownXMLTagsWithIgnoreTag, the
    document key of that name is not reported: the entries are those
    of the document without the key.  When the member is a struct and
    the element holds text, as in [<doc><Maybe>true</Maybe></doc>]
    with [Maybe sub `xml:"-"`], the key is matched and then reported
    all the same, by the shape test of the call on its value. *)
Theorem ignore_tag_member_in_the_walks (ro : RangeOrder) (NewMapXml : Decoder) (g : Globals) :
  NewMapXml dataMaybe [] = (mapMaybe, None) ->
  skiptags g = [] ->
  UnknownXMLTags ro NewMapXml dataMaybe ignoredStructField g = Ret (["Maybe"], "doc", None) g /\
  UnknownXMLTags ro NewMapXml dataMaybe ignoredBoolField g = Ret ([], "doc", None) g /\
  (exists r, MissingXMLTags ro NewMapXml dataMaybe ignoredStructField g = Ret ([], r, None) g) /\
  (forall sf fv flds1 flds2 n p g0 mv cmem,
      first (tagPath sf) = "-" ->
      Missing.checkMembers g0 mv (VStruct n p (flds1 ++ (sf, fv) :: flds2)) cmem =
      Missing.checkMembers g0 mv (VStruct n p (flds1 ++ flds2)) cmem) /\
  (forall sf fv flds1 flds2 n p ro0 sk mm key e,
      nonempty (PkgPath sf) = false ->
      isXMLName fv = false ->
      first (tagPath sf) = "-" ->
      isBasic fv = true ->
      (forall f spec, In f flds2 -> Unknown.fieldKey f <> Some (declaredKey sf, spec)) ->
      (In e (Unknown.checkAllTags ro0 sk (Mapping mm)
               (VStruct n p (flds1 ++ (sf, fv) :: flds2)) key) <->
       In e (Unknown.checkAllTags ro0 sk (Mapping (removeKey (declaredKey sf) mm))
               (VStruct n p (flds1 ++ (sf, fv) :: flds2)) key))).
Proof.
  intros Hdec Hskip. destruct g as [st sm oe mc]. simpl in Hskip. subst st.
  split; [|split; [|split; [|split]]].
  - unfold UnknownXMLTags, bind, get. rewrite Hdec. unfold mapMaybe.
    rewrite firstEntry_single. simpl. unfold keys. simpl. rewrite range_singleton. reflexivity.
  - unfold UnknownXMLTags, bind, get. rewrite Hdec. unfold mapMaybe.
    rewrite firstEntry_single. simpl. unfold keys. simpl. rewrite range_singleton. reflexivity.
  - unfold MissingXMLTags, bind, get. rewrite Hdec. unfold mapMaybe.
    rewrite firstEntry_single. eexists. reflexivity.
  - intros sf fv flds1 flds2 n p g0 mv cmem Ht.
    rewrite (checkMembers_eq g0 mv (VStruct n p (flds1 ++ (sf, fv) :: flds2))).
    rewrite (checkMembers_eq g0 mv (VStruct n p (flds1 ++ flds2))).
    unfold Missing.checkMembersBody. simpl. destruct mv; try reflexivity.
    f_equal. unfold Missing.buildFields. rewrite !flat_map_app. cbn [flat_map].
    rewrite (fieldOf_ignored sf fv Ht). reflexivity.
  - intros sf fv flds1 flds2 n p ro0 sk mm key e He Hx Ht Hb Hlater.
    apply checkAllTags_silent_key.
    assert (Hl : lookup (declaredKey sf) (Unknown.buildFields (flds1 ++ (sf, fv) :: flds2))
                 = Some {| Unknown.val := fv; Unknown.tag := [""] |}).
    { rewrite unknown_buildFields_app. cbn [fold_left].
      rewrite (fieldKey_ignored sf fv He Hx Ht).
      rewrite (unknown_fold_other_keys _ flds2 Hlater). simpl.
      rewrite String.eqb_refl. reflexivity. }
    unfold entriesAt, Unknown.checkKey. rewrite Hl.
    destruct (lookup (declaredKey sf) mm); [|reflexivity].
    destruct (Unknown.skipped sk key (declaredKey sf)); [reflexivity|].
    apply checkAllTags_basic, Hb.
Qed.

Lemma ignore_tag_member_in_the_walks_witness :
  UnknownXMLTags listedOrder (decoderOf mapMaybe) dataMaybe ignoredStructField initial
    = Ret (["Maybe"], "doc", None) initial /\
  UnknownXMLTags listedOrder (decoderOf mapMaybe) dataMaybe ignoredBoolField initial
    = Ret ([], "doc", None) initial.
Proof.
  destruct (ignore_tag_member_in_the_walks listedOrder (decoderOf mapMaybe) initial
              eq_refl eq_refl) as (H1 & H2 & _).
  split; [exact H1|exact H2].
Defined.

(** ** The entries are paths *)






(** * Further properties, of the walks at large *)

Lemma append_cancel (x a b : string) : x +s a = x +s b -> a = b.
Proof. induction x as [|c x IH]; simpl; [auto|]. intros [= H]. apply IH, H. Qed.

Lemma joinPath_injective (parent a b : string) : joinPath parent a = joinPath parent b -> a = b.
Proof.
  unfold joinPath. destruct (parent =? "")%string; [auto|]. apply append_cancel.
Qed.

Lemma checkMembers_flat (g : Globals) (n p : string) (flds : list (StructField * Value))
      (mm : Map) (cmem : string) :
  Forall (fun f => isBasic (snd f) = true) flds ->
  Missing.checkMembers g (Mapping mm) (VStruct n p flds) cmem
  = map (fun fs => joinPath cmem (Missing.lookupName fs))
        (filter (fun fs => negb (Missing.skipped (skipmembers g) cmem (Missing.lookupName fs))
                           && negb (has (Missing.lookupName fs) mm)
                           && (negb (Missing.omitempty fs) || negb (omitemptyOK g)))
                (Missing.buildFields flds)).
Proof.
  intros Hb. rewrite Forall_forall in Hb.
  rewrite checkMembers_eq. unfold Missing.checkMembersBody.
  simpl ValueKind. cbv iota. apply flat_map_filter.
  intros fs Hfs. apply buildFields_In in Hfs. destruct Hfs as (f & Hf & E).
  unfold Missing.checkField, Missing.lookForField, has.
  destruct (Missing.skipped _ _ _); [reflexivity|].
  assert (Hv : isBasic (Missing.val fs) = true)
    by (rewrite (fieldOf_val _ _ E); apply Hb, Hf).
  destruct (lookup (Missing.lookupName fs) mm);
    rewrite (checkMembers_basic g _ _ _ Hv), app_nil_r; [reflexivity|]. simpl.
  destruct (negb (Missing.omitempty fs) || negb (omitemptyOK g)); reflexivity.
Qed.

(** ** The [omitempty] tag *)

(** X9.  [IgnoreOmitemptyTag(b)] decides whether a member tagged
    [omitempty] may be absent.  Afterwards, in the walk of a map
    against a struct, a member tagged [omitempty] that has no key in
    the map and is not among the members to ignore is reported when
    [b] is false; when [b] is true and the members are of basic type,
    its path is not among the entries (no other member of that name
    being there to report it).  Called twice with no argument,
    [IgnoreOmitemptyTag] leaves the package variables as they were. *)
Theorem omitempty_members_follow_the_flag :
  (forall g, (IgnoreOmitemptyTag [] ;;; IgnoreOmitemptyTag []) g = Ret tt g) /\
  (forall g b rest,
      exists g',
        IgnoreOmitemptyTag (b :: rest) g = Ret tt g' /\
        forall mm n p flds cmem fs,
          In fs (Missing.buildFields flds) ->
          Missing.omitempty fs = true ->
          lookup (Missing.lookupName fs) mm = None ->
          Missing.skipped (skipmembers g') cmem (Missing.lookupName fs) = false ->
          (b = false ->
           In (joinPath cmem (Missing.lookupName fs))
              (Missing.checkMembers g' (Mapping mm) (VStruct n p flds) cmem)) /\
          (b = true ->
           Forall (fun f => isBasic (snd f) = true) flds ->
           (forall fs', In fs' (Missing.buildFields flds) ->
                        Missing.lookupName fs' = Missing.lookupName fs ->
                        Missing.omitempty fs' = true) ->
           ~ In (joinPath cmem (Missing.lookupName fs))
                (Missing.checkMembers g' (Mapping mm) (VStruct n p flds) cmem))).
Proof.
  split.
  - intros [st sm oe mc]. destruct oe; reflexivity.
  - intros g b rest. exists (set_omitemptyOK b g). split; [reflexivity|].
    intros mm n p flds cmem fs Hfs Ho Hl Hsk. split.
    + intros ->. rewrite checkMembers_eq. unfold Missing.checkMembersBody.
      simpl ValueKind. cbv iota. apply in_flat_map. exists fs. split; [exact Hfs|].
      unfold Missing.checkField. rewrite Hsk. unfold Missing.lookForField. rewrite Hl, Ho.
      left. reflexivity.
    + intros -> Hb Hsame. rewrite (checkMembers_flat _ _ _ _ _ _ Hb).
      rewrite in_map_iff. intros (fs' & Heq & Hin). apply filter_In in Hin.
      destruct Hin as [Hin Hf]. apply joinPath_injective in Heq.
      rewrite (Hsame fs' Hin Heq) in Hf. simpl in Hf.
      rewrite andb_false_r in Hf. discriminate.
Qed.

(** ** A struct member that the document lacks *)

Lemma checkMembers_struct_app (g : Globals) (mm : Map) (n p : string)
      (flds1 flds2 : list (StructField * Value)) (cmem : string) :
  Missing.checkMembers g (Mapping mm) (VStruct n p (flds1 ++ flds2)) cmem
  = Missing.checkMembers g (Mapping mm) (VStruct n p flds1) cmem
    ++ Missing.checkMembers g (Mapping mm) (VStruct n p flds2) cmem.
Proof.
  rewrite !(checkMembers_eq g (Mapping mm)). unfold Missing.checkMembersBody.
  simpl ValueKind. cbv iota. unfold Missing.buildFields.
  rewrite flat_map_app. apply flat_map_app.
Qed.

Lemma checkMembers_struct_one (g : Globals) (mm : Map) (n p : string)
      (f : StructField * Value) (fs : Missing.fieldSpec) (cmem : string) :
  Missing.fieldOf f = Some fs ->
  Missing.checkMembers g (Mapping mm) (VStruct n p [f]) cmem
  = Missing.checkField g (Missing.checkMembers g) mm cmem fs.
Proof.
  intros E. rewrite (checkMembers_eq g (Mapping mm)). unfold Missing.checkMembersBody.
  simpl ValueKind. cbv iota. unfold Missing.buildFields. cbn [flat_map]. rewrite E.
  simpl. apply app_nil_r.
Qed.

(** X11.  When the document has no key for a member that is a struct,
    or a pointer that points to a struct, [checkMembers] does not list
    the members of that struct: between the entries of the members
    declared before and after it come the path of the member itself
    (left out when the [omitempty] tag allows its absence) and the one
    entry recorded for a struct met by a node that is not a map, the
    latter also for a member tagged [omitempty].  For a member that is
    a nil pointer only the path of the member itself comes. *)
Theorem absent_struct_member_entries (g : Globals) (mm : Map) (n p : string)
        (flds1 flds2 : list (StructField * Value)) (sf : StructField) (fv : Value)
        (fs : Missing.fieldSpec) (cmem : string) :
  Missing.fieldOf (sf, fv) = Some fs ->
  lookup (Missing.lookupName fs) mm = None ->
  Missing.skipped (skipmembers g) cmem (Missing.lookupName fs) = false ->
  let path := joinPath cmem (Missing.lookupName fs) in
  let own := if negb (Missing.omitempty fs) || negb (omitemptyOK g) then [path] else [] in
  let before := Missing.checkMembers g (Mapping mm) (VStruct n p flds1) cmem in
  let after := Missing.checkMembers g (Mapping mm) (VStruct n p flds2) cmem in
  (forall n' p' flds',
      fv = VStruct n' p' flds' \/ fv = VPtr (VStruct n' p' flds') ->
      Missing.checkMembers g (Mapping mm) (VStruct n p (flds1 ++ (sf, fv) :: flds2)) cmem
      = before ++ own ++ [Missing.mismatchEntry path n'] ++ after) /\
  (forall e,
      fv = VNilPtr e ->
      Missing.checkMembers g (Mapping mm) (VStruct n p (flds1 ++ (sf, fv) :: flds2)) cmem
      = before ++ own ++ after).
Proof.
  intros E Hl Hsk path own before after.
  assert (Hone : Missing.checkMembers g (Mapping mm) (VStruct n p (flds1 ++ (sf, fv) :: flds2)) cmem
                 = before ++ (own ++ Missing.checkMembers g Nil fv path) ++ after).
  { change ((sf, fv) :: flds2) with ([(sf, fv)] ++ flds2).
    rewrite !checkMembers_struct_app, (checkMembers_struct_one _ _ _ _ _ _ _ E).
    unfold Missing.checkField. rewrite Hsk. unfold Missing.lookForField. rewrite Hl.
    rewrite (fieldOf_val _ _ E). reflexivity. }
  split.
  - intros n' p' flds' Hv. rewrite Hone. f_equal. rewrite <- app_assoc. f_equal. f_equal.
    destruct Hv as [-> | ->].
    + apply checkMembers_struct_not_map. discriminate.
    + rewrite checkMembers_ptr by discriminate. apply checkMembers_struct_not_map. discriminate.
  - intros e ->. rewrite Hone. f_equal. f_equal.
    rewrite checkMembers_eq. simpl. apply app_nil_r.
Qed.

(** [More test2 `xml:"more,omitempty"`] and a document without [more]. *)
Lemma absent_struct_member_entries_witness :
  Missing.checkMembers initial (Mapping [("ok", Text "true")])
    (VStruct "test" "checkxml"
       ([(field "Ok" "ok", VBool)] ++ (field "More" "more,omitempty", test2)
          :: [(field "Why" "why", VString)])) ""
  = [] ++ [] ++ [Missing.mismatchEntry "more" "test2"] ++ ["why"].
Proof.
  destruct (absent_struct_member_entries initial [("ok", Text "true")] "test" "checkxml"
              [(field "Ok" "ok", VBool)] [(field "Why" "why", VString)]
              (field "More" "more,omitempty") test2
              {| Missing.name := "More"; Missing.val := test2;
                 Missing.tag := ["more"]; Missing.omitempty := true |}
              "" eq_refl eq_refl eq_refl) as [H _].
  apply (H "test2" "checkxml" [(field "Why" "", VString); (field "Not" "", VString)]).
  left. reflexivity.
Defined.

(** ** Two members under one key *)

Lemma checkAllTags_one_key (ro : RangeOrder) (sk : list string) (k : string) (m : Node)
      (n p : string) (flds : list (StructField * Value)) (key : string) :
  Unknown.checkAllTags ro sk (Mapping [(k, m)]) (VStruct n p flds) key
  = entriesAt ro sk (Unknown.buildFields flds) key [(k, m)] k.
Proof.
  rewrite checkAllTags_mapping. unfold keys. simpl map. rewrite range_singleton.
  simpl. apply app_nil_r.
Qed.

(** X13.  When several members are entered under one key, the
    document is checked against the last of them: the field table
    holds that member for the key, a document that has just that key
    is walked as its value against that member, and in any document
    the entries of the walk of the key's value against that member are
    among the entries returned. *)
Theorem last_member_under_a_key_wins (f : StructField * Value)
        (flds1 flds2 : list (StructField * Value)) (k : string) (spec : Unknown.fieldSpec) :
  Unknown.fieldKey f = Some (k, spec) ->
  (forall f' spec', In f' flds2 -> Unknown.fieldKey f' <> Some (k, spec')) ->
  lookup k (Unknown.buildFields (flds1 ++ f :: flds2)) = Some spec /\
  (forall ro sk n p key m,
      Unknown.skipped sk key k = false ->
      Unknown.checkAllTags ro sk (Mapping [(k, m)]) (VStruct n p (flds1 ++ f :: flds2)) key
      = Unknown.checkAllTags ro sk m (snd f) (joinPath key k)) /\
  (forall ro sk n p key mm m e,
      lookup k mm = Some m ->
      Unknown.skipped sk key k = false ->
      In e (Unknown.checkAllTags ro sk m (snd f) (joinPath key k)) ->
      In e (Unknown.checkAllTags ro sk (Mapping mm) (VStruct n p (flds1 ++ f :: flds2)) key)).
Proof.
  intros Hf Hlater.
  assert (Hl : lookup k (Unknown.buildFields (flds1 ++ f :: flds2)) = Some spec).
  { rewrite unknown_buildFields_app. cbn [fold_left]. rewrite Hf.
    rewrite (unknown_fold_other_keys k flds2 Hlater). simpl. rewrite String.eqb_refl.
    reflexivity. }
  pose proof (fieldKey_val _ _ _ Hf) as Hv.
  split; [exact Hl|]. split.
  - intros ro sk n p key m Hs. rewrite checkAllTags_one_key.
    unfold entriesAt, Unknown.checkKey. simpl lookup at 1. rewrite String.eqb_refl.
    rewrite Hs, Hl, Hv. reflexivity.
  - intros ro sk n p key mm m e Hm Hs He. rewrite checkAllTags_mapping. apply in_flat_map.
    exists k. split.
    + apply (Permutation_in k (Permutation_sym (order_perm ro (keys mm)))).
      apply (lookup_keys _ _ _ Hm).
    + unfold entriesAt, Unknown.checkKey. rewrite Hm, Hs, Hl, Hv. exact He.
Qed.

(** [A string `xml:"-"`] then [B sub `xml:"A"`], both under ["A"]:
    [<A>x</A>] is checked against the struct [sub], and reported. *)
Lemma last_member_under_a_key_wins_witness :
  Unknown.checkAllTags listedOrder [] (Mapping [("A", Text "x")])
    (VStruct "t" "checkxml" ([(field "A" "-", VString)] ++ (field "B" "A", subStruct) :: [])) ""
  = Unknown.checkAllTags listedOrder [] (Text "x") subStruct "A".
Proof.
  destruct (last_member_under_a_key_wins (field "B" "A", subStruct)
              [(field "A" "-", VString)] [] "A"
              {| Unknown.val := subStruct; Unknown.tag := ["A"] |}
              eq_refl (fun f' spec' (H : In f' []) => match H with end)) as (_ & H & _).
  apply (H listedOrder [] "t" "checkxml" "" (Text "x")). reflexivity.
Defined.

(** ** Below a member of basic type *)

(** X17.  What lies below a key is looked into only when the member
    entered under that key is a struct or a slice.  For a member of
    basic type the walk reports nothing for the key, whatever its
    value holds: the entries are those of the document without the
    key, and a document with just that key gives none.  So the
    attributes and the children of such an element are never reported:
    for the documentation's third example, where [e1] has an attribute
    and [E1] is a string, [UnknownXMLTags] returns [e2] alone. *)
Theorem nothing_reported_below_a_basic_member (ro : RangeOrder) (sk : list string)
        (n p : string) (flds : list (StructField * Value)) (key k : string)
        (spec : Unknown.fieldSpec) :
  lookup k (Unknown.buildFields flds) = Some spec ->
  isBasic (Unknown.val spec) = true ->
  (forall mm e,
      In e (Unknown.checkAllTags ro sk (Mapping mm) (VStruct n p flds) key) <->
      In e (Unknown.checkAllTags ro sk (Mapping (removeKey k mm)) (VStruct n p flds) key)) /\
  (forall m, Unknown.checkAllTags ro sk (Mapping [(k, m)]) (VStruct n p flds) key = []) /\
  (forall NewMapXml g,
      NewMapXml data3 [] = (map3, None) ->
      skiptags g = [] ->
      UnknownXMLTags ro NewMapXml data3 doc3 g = Ret (["e2"], "doc", None) g).
Proof.
  intros Hl Hb.
  assert (Hsilent : forall mm, entriesAt ro sk (Unknown.buildFields flds) key mm k = []).
  { intros mm. unfold entriesAt, Unknown.checkKey. rewrite Hl.
    destruct (lookup k mm); [|reflexivity].
    destruct (Unknown.skipped sk key k); [reflexivity|]. apply checkAllTags_basic, Hb. }
  split; [|split].
  - intros mm e. apply checkAllTags_silent_key, Hsilent.
  - intros m. rewrite checkAllTags_one_key. apply Hsilent.
  - intros NewMapXml [st sm oe mc] Hdec Hskip. simpl in Hskip. subst st.
    unfold UnknownXMLTags, bind, get. rewrite Hdec. unfold map3.
    rewrite firstEntry_single. cbn [isMapOrList negb]. unfold ret, doc3.
    rewrite checkAllTags_mapping. unfold keys. cbn [map fst].
    destruct (Permutation_length_2_inv (Permutation_sym (order_perm ro ["e1"; "e2"])))
      as [E | E]; rewrite E; reflexivity.
Qed.

(** The documentation's third example. *)
Lemma nothing_reported_below_a_basic_member_witness :
  UnknownXMLTags listedOrder (decoderOf map3) data3 doc3 initial
  = Ret (["e2"], "doc", None) initial.
Proof.
  destruct (nothing_reported_below_a_basic_member listedOrder [] "doc3" "checkxml"
              [(field "E1" "e1", VString)] "" "e1"
              {| Unknown.val := VString; Unknown.tag := ["e1"] |} eq_refl eq_refl)
    as (_ & _ & H).
  apply (H (decoderOf map3) initial); reflexivity.
Defined.
